(** * gpt-cli: the chat client of cmd/gpt/main.go

    A shallow embedding of the program's two units, the UI event loop
    ([Update]) and the completion requester ([createChatCompletion]),
    of the two unbuffered channels between them, and the properties the
    design note states about them.

    The terminal toolkit (bubbles, lipgloss) and the completion client
    (go-openai) are external collaborators: the toolkit is a signature
    ([Toolkit]) the development is parametric in, the completion
    service is the environment of the requester's transition system. *)

From Stdlib Require Import List String Ascii ZArith Bool Lia PeanoNat.
Import ListNotations.

Open Scope string_scope.
Open Scope Z_scope.
Open Scope list_scope.

Set Implicit Arguments.

(** ** Go preliminaries *)

(** A call either returns or panics (a run-time fault such as an index
    out of range). *)
Inductive Result (A : Type) : Type :=
| Ok (a : A)
| Panic (reason : string).

Arguments Ok {A} a.
Arguments Panic {A} reason.

(** The [error] values the program can meet: the sentinel [io.EOF],
    a plain error, and an error wrapping another one. *)
Inductive error : Type :=
| io_EOF
| errorString (s : string)
| wrapError (s : string) (inner : error).

Fixpoint error_eqb (a b : error) : bool :=
  match a, b with
  | io_EOF, io_EOF => true
  | errorString s, errorString t => String.eqb s t
  | wrapError s x, wrapError t y => String.eqb s t && error_eqb x y
  | _, _ => false
  end.

(** The chain walk of [errors.Is] on non-nil operands. *)
Fixpoint error_is (err target : error) : bool :=
  if error_eqb err target then true
  else match err with
       | wrapError _ inner => error_is inner target
       | _ => false
       end.

(** [errors.Is(err, target)]; [None] is the nil error. *)
Definition errors_Is (err target : option error) : bool :=
  match err, target with
  | Some e, Some t => error_is e t
  | None, None => true
  | _, _ => false
  end.

(** [strings.Join(elems, sep)]. *)
Definition strings_Join (elems : list string) (sep : string) : string :=
  String.concat sep elems.

(** Concatenation of strings in order, the effect of repeated [+=]. *)
Definition concat_all (l : list string) : string :=
  fold_right String.append EmptyString l.

Definition newline : string := String (ascii_of_nat 10) EmptyString.

(** [path.Base]: the last element of a slash-separated path. *)
Fixpoint drop_slashes (l : list ascii) : list ascii :=
  match l with
  | c :: r => if Ascii.eqb c "/"%char then drop_slashes r else l
  | [] => []
  end.

Fixpoint take_element (l : list ascii) : list ascii :=
  match l with
  | c :: r => if Ascii.eqb c "/"%char then [] else c :: take_element r
  | [] => []
  end.

Definition path_Base (p : string) : string :=
  if String.eqb p "" then "."
  else
    let last := take_element (drop_slashes (rev (list_ascii_of_string p))) in
    match last with
    | [] => "/"
    | _ => string_of_list_ascii (rev last)
    end.

(** ** Messages and commands of the event loop *)

(** The key types [Update] distinguishes; [KeyOther] stands for every
    other key type of the toolkit (runes, arrows, backspace, ...). *)
Inductive KeyType : Type :=
| KeyCtrlC
| KeyEsc
| KeyEnter
| KeyRunes
| KeyOther (code : Z).

(** [tea.KeyMsg]. *)
Record Key : Type := mkKey {
  Type_ : KeyType;
  Runes : string;
  Alt : bool
}.

(** [tea.Msg] is the empty interface; [Update] switches on its dynamic
    type.  [errMsg] is an interface type, so that case takes every
    message that is an [error].  [otherMsg] is a message of any other
    type (mouse, cursor blink, ...). *)
Inductive Msg (Other : Type) : Type :=
| KeyMsg (k : Key)
| WindowSizeMsg (Width Height : Z)
| deltaMsg (s : string)
| errMsg (e : error)
| otherMsg (o : Other).

Arguments KeyMsg {Other} k.
Arguments WindowSizeMsg {Other} Width Height.
Arguments deltaMsg {Other} s.
Arguments errMsg {Other} e.
Arguments otherMsg {Other} o.

(** The two hand-off channels held by the model; both are made with
    [make(chan string)], hence unbuffered. *)
Inductive Chan : Type :=
| inputMessage
| deltaMessage.

(** The commands the program hands to the runtime.  A [tea.Cmd] is a
    list of them: [nil] is the empty list and [tea.Batch] concatenates. *)
Inductive Command (W : Type) : Type :=
| Quit
| waitForDelta (msg : Chan)
| createChatCompletion
| widgetCmd (c : W).

Arguments Quit {W}.
Arguments waitForDelta {W} msg.
Arguments createChatCompletion {W}.
Arguments widgetCmd {W} c.

Definition tea_Batch {W : Type} (cmds : list (list (Command W))) : list (Command W) :=
  List.concat cmds.

(** What a call of [Update] does besides computing its result. *)
Inductive Effect : Type :=
| Println (s : string)
| Send (ch : Chan) (v : string).

(** ** The terminal toolkit *)

(** The text area as lines 69-84 configure it. *)
Record textarea_Settings : Type := {
  Placeholder : string;
  Focus : bool;
  Prompt : string;
  CharLimit : Z;
  SetWidth : Z;
  SetHeight : Z;
  CursorLineStyled : bool;
  ShowLineNumbers : bool;
  InsertNewline : bool
}.

(** The operations of bubbles' text area and viewport and of lipgloss
    that the program calls, over the types of the widgets' models, of
    the widgets' commands and of the toolkit's other messages. *)
Class Toolkit (OtherMsg WidgetCmd textarea_Model viewport_Model : Type) : Type := {
  (* lipgloss.NewStyle().Foreground(lipgloss.Color(c)).Render(s) *)
  Render : string -> string -> string;
  textarea_New : textarea_Settings -> textarea_Model;
  textarea_Value : textarea_Model -> string;
  textarea_Reset : textarea_Model -> textarea_Model;
  textarea_SetWidth : textarea_Model -> Z -> textarea_Model;
  textarea_Update : textarea_Model -> Msg OtherMsg -> textarea_Model * list WidgetCmd;
  textarea_View : textarea_Model -> string;
  textarea_Blink : WidgetCmd;
  viewport_New : Z -> Z -> viewport_Model;
  viewport_SetContent : viewport_Model -> string -> viewport_Model;
  viewport_GotoBottom : viewport_Model -> viewport_Model;
  viewport_AtBottom : viewport_Model -> bool;
  viewport_Update : viewport_Model -> Msg OtherMsg -> viewport_Model * list WidgetCmd;
  viewport_View : viewport_Model -> string
}.

(** The process environment [initialModel] reads. *)
Record Environ : Type := {
  SHELL : string;
  OPENAI_API_KEY : string;
  GOOS : string
}.

(** ** The completion requester *)

(** The part of go-openai's request and response types the program
    touches. *)
Record ChatCompletionMessage : Type := {
  Role : string;
  Content : string
}.

Record ChatCompletionRequest : Type := {
  Model : string;
  Messages : list ChatCompletionMessage
}.

Record ChatCompletionStreamChoice : Type := {
  Delta_Content : string
}.

Record ChatCompletionStreamResponse : Type := {
  Choices : list ChatCompletionStreamChoice
}.

Definition GPT3Dot5Turbo : string := "gpt-3.5-turbo".
Definition ChatMessageRoleUser : string := "user".

(** A stream handle returned by [CreateChatCompletionStream]. *)
Definition Stream : Type := nat.

(** The points where the closure of [createChatCompletion] waits for
    its environment, with the local variables live there. *)
Inductive ReqPC : Type :=
| AwaitInput                                   (* line 179: <-m.inputMessage *)
| Creating (req : ChatCompletionRequest)       (* line 183: the call is in progress *)
| Receiving (stream : Stream)                  (* line 190: stream.Recv() *)
| Forwarding (frag : string) (stream : Stream) (* line 199: m.deltaMessage <- ... *)
| Returned (e : error)                         (* lines 185, 196: the closure has returned *)
| Panicked.                                    (* line 199: Choices[0] on an empty slice *)

(** A panic of the closure is not recovered: in Go it ends the whole
    process.  The requester then stays in [Panicked] and takes no
    event; the steps of the system below leave the other components as
    they were, so the states reachable there include the program's
    and what holds in all of them holds of the program.  The results on
    states from which nothing can move are stated for a requester that
    has not panicked.

    [deferred] holds the streams whose [Close] line 187 has deferred,
    the latest first: they run when the closure returns. *)
Record ReqState : Type := mkReq {
  pc : ReqPC;
  deferred : list Stream
}.

(** How the environment completes the operation the requester waits on. *)
Inductive ReqEvent : Type :=
| RecvInput (message : string)
| Created (stream : Stream) (err : option error)
| Recv (response : ChatCompletionStreamResponse) (err : option error)
| Sent.

(** What the requester does to its environment. *)
Inductive ReqOut : Type :=
| Request (req : ChatCompletionRequest)
| Forwarded (frag : string)
| Closed (stream : Stream)
| Emitted (e : error).

(** The request lines 174-182 build for a submitted text. *)
Definition request_for (message : string) : ChatCompletionRequest :=
  {| Model := GPT3Dot5Turbo;
     Messages := [ {| Role := ChatMessageRoleUser; Content := message |} ] |}.

(** The requester when its command starts. *)
Definition req_init : ReqState := {| pc := AwaitInput; deferred := [] |}.

(** [return errMsg(err)]: the deferred calls run, then the caller gets
    the error message. *)
Definition req_return (st : ReqState) (e : error) : ReqState * list ReqOut :=
  ({| pc := Returned e; deferred := [] |}, map Closed (deferred st) ++ [Emitted e]).

(** The closure [createChatCompletion] returns (lines 171-202), as the
    function from the point it waits at and the event that ends the
    wait to the next such point and what it did in between; [None]
    when the event is not one it waits for there. *)
Definition req_step (st : ReqState) (ev : ReqEvent) : option (ReqState * list ReqOut) :=
  match pc st, ev with
  | AwaitInput, RecvInput message =>
      let req := request_for message in
      Some ({| pc := Creating req; deferred := deferred st |}, [Request req])
  | Creating _, Created stream err =>
      match err with
      | Some e => Some (req_return st e)
      | None => Some ({| pc := Receiving stream; deferred := stream :: deferred st |}, [])
      end
  | Receiving stream, Recv response err =>
      if errors_Is err (Some io_EOF) then
        Some ({| pc := AwaitInput; deferred := deferred st |}, [])
      else
        match err with
        | Some e => Some (req_return st e)
        | None =>
            match Choices response with
            | [] => Some ({| pc := Panicked; deferred := [] |}, map Closed (deferred st))
            | choice :: _ =>
                Some ({| pc := Forwarding (Delta_Content choice) stream;
                         deferred := deferred st |}, [])
            end
        end
  | Forwarding frag stream, Sent =>
      Some ({| pc := Receiving stream; deferred := deferred st |}, [Forwarded frag])
  | _, _ => None
  end.

(** A run of the requester against the events its environment supplies;
    [None] when an event does not answer what the requester waits on. *)
Fixpoint req_run (st : ReqState) (evs : list ReqEvent) : option (ReqState * list ReqOut) :=
  match evs with
  | [] => Some (st, [])
  | ev :: rest =>
      match req_step st ev with
      | None => None
      | Some (st', outs) =>
          match req_run st' rest with
          | None => None
          | Some (st'', outs') => Some (st'', outs ++ outs')
          end
      end
  end.

(** The events one exchange feeds the requester: the submitted text,
    the opened stream, each chunk followed by the completion of its
    hand-off, and the error that ends the stream. *)
Definition exchange_events (message : string) (stream : Stream)
    (chunks : list ChatCompletionStreamResponse)
    (last : ChatCompletionStreamResponse) (e : error) : list ReqEvent :=
  RecvInput message :: Created stream None
    :: flat_map (fun r => [Recv r None; Sent]) chunks ++ [Recv last (Some e)].

(** The text line 199 takes from a chunk that has a choice. *)
Definition fragment_of (r : ChatCompletionStreamResponse) : string :=
  match Choices r with
  | choice :: _ => Delta_Content choice
  | [] => ""
  end.

(** The failures that end the requester: the call that opens the
    stream returns an error, or a read returns an error that is not
    the end of the stream. *)
Definition fatal (st : ReqState) (ev : ReqEvent) : option error :=
  match pc st, ev with
  | Creating _, Created _ (Some e) => Some e
  | Receiving _, Recv _ (Some e) =>
      if errors_Is (Some e) (Some io_EOF) then None else Some e
  | _, _ => None
  end.

Definition is_Emitted (o : ReqOut) : bool :=
  match o with Emitted _ => true | _ => false end.

Definition is_Request (o : ReqOut) : bool :=
  match o with Request _ => true | _ => false end.

Definition is_Closed (o : ReqOut) : bool :=
  match o with Closed _ => true | _ => false end.

(** The requester has neither returned nor panicked. *)
Definition running (st : ReqState) : bool :=
  match pc st with
  | Returned _ | Panicked => false
  | _ => true
  end.

(** The fragment the requester holds while its send is pending. *)
Definition held (st : ReqState) : list string :=
  match pc st with
  | Forwarding frag _ => [frag]
  | _ => []
  end.

(** What a sequence of events brings: the texts received on the input
    hand-off, the streams opened, and the fragments of the chunks read
    without error. *)
Fixpoint inputs_of (evs : list ReqEvent) : list string :=
  match evs with
  | RecvInput message :: rest => message :: inputs_of rest
  | _ :: rest => inputs_of rest
  | [] => []
  end.

Fixpoint opened_of (evs : list ReqEvent) : list Stream :=
  match evs with
  | Created stream None :: rest => stream :: opened_of rest
  | _ :: rest => opened_of rest
  | [] => []
  end.

Fixpoint chunks_of (evs : list ReqEvent) : list string :=
  match evs with
  | Recv r None :: rest =>
      match Choices r with
      | choice :: _ => Delta_Content choice :: chunks_of rest
      | [] => chunks_of rest
      end
  | _ :: rest => chunks_of rest
  | [] => []
  end.

(** What the requester did: the requests issued, the fragments handed
    on and the streams closed, each in order. *)
Fixpoint requests_of (outs : list ReqOut) : list ChatCompletionRequest :=
  match outs with
  | Request req :: rest => req :: requests_of rest
  | _ :: rest => requests_of rest
  | [] => []
  end.

Fixpoint forwarded_of (outs : list ReqOut) : list string :=
  match outs with
  | Forwarded frag :: rest => frag :: forwarded_of rest
  | _ :: rest => forwarded_of rest
  | [] => []
  end.

Fixpoint closed_of (outs : list ReqOut) : list Stream :=
  match outs with
  | Closed stream :: rest => stream :: closed_of rest
  | _ :: rest => closed_of rest
  | [] => []
  end.

(** ** A reference toolkit

    A small implementation of the [Toolkit] signature, after the
    documented behaviour of the widgets, on which runs of the program
    can be computed. *)

Module Reference.

Record ta_model : Type := {
  ta_settings : textarea_Settings;
  ta_value : string;
  ta_width : Z
}.

Record vp_model : Type := {
  vp_width : Z;
  vp_height : Z;
  vp_content : string;
  vp_YOffset : Z
}.

Fixpoint line_count (s : string) : Z :=
  match s with
  | EmptyString => 1
  | String c r => if Ascii.eqb c (ascii_of_nat 10) then 1 + line_count r else line_count r
  end.

Definition maxYOffset (v : vp_model) : Z :=
  Z.max 0 (line_count (vp_content v) - vp_height v).

Definition vp_scroll (v : vp_model) (y : Z) : vp_model :=
  {| vp_width := vp_width v; vp_height := vp_height v;
     vp_content := vp_content v; vp_YOffset := Z.max 0 (Z.min y (maxYOffset v)) |}.

Definition vp_GotoBottom (v : vp_model) : vp_model :=
  vp_scroll v (maxYOffset v).

Definition vp_SetContent (v : vp_model) (s : string) : vp_model :=
  let v' := {| vp_width := vp_width v; vp_height := vp_height v;
               vp_content := s; vp_YOffset := vp_YOffset v |} in
  if line_count s - 1 <? vp_YOffset v then vp_GotoBottom v' else v'.

Definition vp_AtBottom (v : vp_model) : bool :=
  maxYOffset v <=? vp_YOffset v.

(** The viewport scrolls on its own keys and ignores what is not a key. *)
Definition vp_Update (v : vp_model) (msg : Msg unit) : vp_model * list unit :=
  match msg with
  | KeyMsg k =>
      match Type_ k with
      | KeyRunes =>
          if String.eqb (Runes k) "j" then (vp_scroll v (vp_YOffset v + 1), [])
          else if String.eqb (Runes k) "k" then (vp_scroll v (vp_YOffset v - 1), [])
          else (v, [])
      | _ => (v, [])
      end
  | _ => (v, [])
  end.

Definition ta_with_value (t : ta_model) (s : string) : ta_model :=
  {| ta_settings := ta_settings t; ta_value := s; ta_width := ta_width t |}.

(** The text area inserts typed runes up to its character limit, a
    newline only when that binding is enabled, and ignores the rest. *)
Definition ta_Update (t : ta_model) (msg : Msg unit) : ta_model * list unit :=
  match msg with
  | KeyMsg k =>
      match Type_ k with
      | KeyRunes =>
          let room := CharLimit (ta_settings t) - Z.of_nat (String.length (ta_value t)) in
          (ta_with_value t (ta_value t ++ substring 0 (Z.to_nat room) (Runes k))%string, [])
      | KeyEnter =>
          if InsertNewline (ta_settings t)
          then (ta_with_value t (ta_value t ++ newline)%string, [])
          else (t, [])
      | _ => (t, [])
      end
  | _ => (t, [])
  end.

Definition ta_View (t : ta_model) : string :=
  (Prompt (ta_settings t)
   ++ (if String.eqb (ta_value t) "" then Placeholder (ta_settings t) else ta_value t))%string.

(** Styles render as plain text, as on an output without colours. *)
Definition toolkit : Toolkit unit unit ta_model vp_model := {|
  Render := fun _ s => s;
  textarea_New := fun st =>
    {| ta_settings := st; ta_value := ""; ta_width := SetWidth st |};
  textarea_Value := ta_value;
  textarea_Reset := fun t => ta_with_value t "";
  textarea_SetWidth := fun t w =>
    {| ta_settings := ta_settings t; ta_value := ta_value t; ta_width := w |};
  textarea_Update := ta_Update;
  textarea_View := ta_View;
  textarea_Blink := tt;
  viewport_New := fun w h =>
    {| vp_width := w; vp_height := h; vp_content := ""; vp_YOffset := 0 |};
  viewport_SetContent := vp_SetContent;
  viewport_GotoBottom := vp_GotoBottom;
  viewport_AtBottom := vp_AtBottom;
  viewport_Update := vp_Update;
  viewport_View := vp_content
|}.

Definition env : Environ :=
  {| SHELL := "/bin/bash"; OPENAI_API_KEY := "sk-test"; GOOS := "linux" |}.

Definition key (t : KeyType) : Msg unit := KeyMsg (mkKey t "" false).

Definition type (s : string) : Msg unit := KeyMsg (mkKey KeyRunes s false).

(** A sample conversation and a sample stream. *)
Definition typing : list (Msg unit) := [type "hi"].

Definition rounds : list (Msg unit * list (Msg unit)) :=
  [ (key KeyEnter, [deltaMsg "Hel"; deltaMsg "lo"; deltaMsg " world"]);
    (key KeyEnter, [WindowSizeMsg 80 24]) ].

Definition chunk (s : string) : ChatCompletionStreamResponse :=
  {| Choices := [ {| Delta_Content := s |} ] |}.

Definition no_chunk : ChatCompletionStreamResponse := {| Choices := [] |}.

Definition wrapped_EOF : error := wrapError "read" io_EOF.

Definition conn_reset : error := errorString "connection reset".

End Reference.

(** * The program *)

Section Program.

Context {OtherMsg WidgetCmd textarea_Model viewport_Model : Type}.
Context {T : Toolkit OtherMsg WidgetCmd textarea_Model viewport_Model}.

(** ** The model and the event loop's transition function *)

Definition TeaMsg : Type := Msg OtherMsg.
Definition Cmd : Type := list (Command WidgetCmd).

(** The struct [model].  Its two channel fields are the constants of
    [Chan]; [client] is the API client, made from the key.  [Update]
    has a value receiver and works on its copy of the struct; the slice
    [messages] of the copy is not read again through the old value, so
    it is a list here. *)
Record model : Type := mkModel {
  goos : string;
  shell : string;
  client : string;
  width : Z;
  height : Z;
  viewport : viewport_Model;
  textarea : textarea_Model;
  err : option error;
  messages : list string
}.

Definition set_size (m : model) (w h : Z) : model :=
  mkModel (goos m) (shell m) (client m) w h (viewport m) (textarea m) (err m) (messages m).

Definition set_viewport (m : model) (vp : viewport_Model) : model :=
  mkModel (goos m) (shell m) (client m) (width m) (height m) vp (textarea m) (err m) (messages m).

Definition set_textarea (m : model) (ta : textarea_Model) : model :=
  mkModel (goos m) (shell m) (client m) (width m) (height m) (viewport m) ta (err m) (messages m).

Definition set_err (m : model) (e : option error) : model :=
  mkModel (goos m) (shell m) (client m) (width m) (height m) (viewport m) (textarea m) e (messages m).

Definition set_messages (m : model) (l : list string) : model :=
  mkModel (goos m) (shell m) (client m) (width m) (height m) (viewport m) (textarea m) (err m) l.

Definition welcome : string :=
  "Welcome to the chat room!" ++ newline ++ "Type a message and press Enter to send.".

(** [initialModel], lines 59-104. *)
Definition initialModel (env : Environ) : model :=
  let shell := if String.eqb (SHELL env) "" then "sh" else path_Base (SHELL env) in
  let ta := textarea_New {|
    Placeholder := "Type here";
    Focus := true;
    Prompt := "┃ ";
    CharLimit := 280;
    SetWidth := 300;
    SetHeight := 3;
    CursorLineStyled := false;
    ShowLineNumbers := false;
    InsertNewline := false |} in
  let vp := viewport_SetContent (viewport_New 100 5) welcome in
  {| goos := GOOS env;
     shell := shell;
     client := OPENAI_API_KEY env;
     width := 0;
     height := 0;
     viewport := vp;
     textarea := ta;
     err := None;
     messages := [] |}.

(** [Init], lines 106-112. *)
Definition Init (m : model) : Cmd :=
  tea_Batch [ [widgetCmd textarea_Blink]; [createChatCompletion]; [waitForDelta deltaMessage] ].

(** What one call of [Update] yields: the model and command it returns
    and the effects it performed, in order. *)
Record Updated : Type := mkUpdated {
  new_model : model;
  cmd : Cmd;
  effects : list Effect
}.

(** Lines 155-159: both widgets see the message, their commands join
    the batch. *)
Definition delegate (m : model) (cmds : list Cmd) (effs : list Effect) (msg : TeaMsg) : Updated :=
  let (ta, tiCmd) := textarea_Update (textarea m) msg in
  let (vp, vpCmd) := viewport_Update (viewport m) msg in
  {| new_model := set_viewport (set_textarea m ta) vp;
     cmd := tea_Batch (cmds ++ [map (@widgetCmd _) tiCmd; map (@widgetCmd _) vpCmd]);
     effects := effs |}.

(** [l[i] += s] for a slice [l] and an [int] index: out of range is a
    run-time panic. *)
Definition append_at (l : list string) (i : Z) (s : string) : Result (list string) :=
  if (i <? 0) || (Z.of_nat (List.length l) <=? i) then
    Panic "index out of range"
  else
    match nth_error l (Z.to_nat i) with
    | Some line => Ok (firstn (Z.to_nat i) l ++ (line ++ s)%string :: skipn (S (Z.to_nat i)) l)
    | None => Panic "index out of range"
    end.

(** The lines appended at a submission, lines 130 and 131. *)
Definition user_line (message : string) : string :=
  (Render "5" "You: " ++ message)%string.

Definition system_line : string := Render "5" "System: ".

(** [Update], lines 114-160.  The send of line 136 is recorded as an
    effect: what the call computes does not depend on when the send
    completes. *)
Definition Update (m : model) (msg : TeaMsg) : Result Updated :=
  match msg with
  | KeyMsg k =>
      match Type_ k with
      | KeyCtrlC | KeyEsc =>
          Ok {| new_model := m; cmd := [Quit];
                effects := [Println (textarea_Value (textarea m))] |}
      | KeyEnter =>
          let message := textarea_Value (textarea m) in
          let m := set_messages m (messages m ++ [user_line message]) in
          let m := set_messages m (messages m ++ [system_line]) in
          let m := set_viewport m (viewport_SetContent (viewport m) (strings_Join (messages m) newline)) in
          let m := set_textarea m (textarea_Reset (textarea m)) in
          let m := set_viewport m (viewport_GotoBottom (viewport m)) in
          Ok (delegate m [] [Send inputMessage message] msg)
      | _ => Ok (delegate m [] [] msg)
      end
  | WindowSizeMsg w h =>
      let m := set_size m w h in
      let m := set_textarea m (textarea_SetWidth (textarea m) (width m)) in
      Ok (delegate m [] [] msg)
  | deltaMsg s =>
      match append_at (messages m) (Z.of_nat (List.length (messages m)) - 1) s with
      | Panic reason => Panic reason
      | Ok l =>
          let m := set_messages m l in
          let m := set_viewport m (viewport_SetContent (viewport m) (strings_Join (messages m) newline)) in
          let m := set_viewport m (viewport_GotoBottom (viewport m)) in
          Ok (delegate m [[waitForDelta deltaMessage]] [] msg)
      end
  | errMsg e =>
      Ok {| new_model := set_err m (Some e); cmd := []; effects := [] |}
  | otherMsg _ => Ok (delegate m [] [] msg)
  end.

(** [View], lines 162-168. *)
Definition View (m : model) : string :=
  (viewport_View (viewport m) ++ newline ++ newline ++ textarea_View (textarea m)
   ++ newline ++ newline)%string.

(** ** Runs of the event loop *)

Definition is_Quit (c : Command WidgetCmd) : bool :=
  match c with Quit => true | _ => false end.

Definition is_waitForDelta (c : Command WidgetCmd) : bool :=
  match c with waitForDelta deltaMessage => true | _ => false end.

Definition is_widget (c : Command WidgetCmd) : bool :=
  match c with widgetCmd _ => true | _ => false end.

Definition is_delta (msg : TeaMsg) : bool :=
  match msg with deltaMsg _ => true | _ => false end.

(** What a run of the loop over a sequence of messages leaves behind. *)
Record Run : Type := mkRun {
  final : model;
  issued : Cmd;
  performed : list Effect;
  quit : bool
}.

(** The runtime's loop: each message goes through [Update], whose
    model replaces the current one; [tea.Quit] ends the loop, a panic
    ends the program.  Here every hand-off completes at once; the
    section on the whole system lifts that. *)
Fixpoint eventLoop (m : model) (msgs : list TeaMsg) : Result Run :=
  match msgs with
  | [] => Ok {| final := m; issued := []; performed := []; quit := false |}
  | msg :: rest =>
      match Update m msg with
      | Panic reason => Panic reason
      | Ok u =>
          if existsb is_Quit (cmd u) then
            Ok {| final := new_model u; issued := cmd u;
                  performed := effects u; quit := true |}
          else
            match eventLoop (new_model u) rest with
            | Panic reason => Panic reason
            | Ok r => Ok {| final := final r; issued := cmd u ++ issued r;
                            performed := effects u ++ performed r; quit := quit r |}
            end
      end
  end.

(** The texts sent on the input hand-off, in order. *)
Fixpoint submitted (effs : list Effect) : list string :=
  match effs with
  | Send inputMessage v :: rest => v :: submitted rest
  | _ :: rest => submitted rest
  | [] => []
  end.

(** The lines written to standard output, in order. *)
Fixpoint printed (effs : list Effect) : list string :=
  match effs with
  | Println s :: rest => s :: printed rest
  | _ :: rest => printed rest
  | [] => []
  end.

(** The fragments among a sequence of messages, in order. *)
Fixpoint fragments (msgs : list TeaMsg) : list string :=
  match msgs with
  | deltaMsg s :: rest => s :: fragments rest
  | _ :: rest => fragments rest
  | [] => []
  end.

Definition is_submit (msg : TeaMsg) : bool :=
  match msg with
  | KeyMsg k => match Type_ k with KeyEnter => true | _ => false end
  | _ => false
  end.

Definition is_quit (msg : TeaMsg) : bool :=
  match msg with
  | KeyMsg k => match Type_ k with KeyCtrlC | KeyEsc => true | _ => false end
  | _ => false
  end.

(** Messages that neither submit nor quit. *)
Definition passive (msg : TeaMsg) : bool :=
  negb (is_submit msg) && negb (is_quit msg).

(** The two transcript lines of one exchange: the user's line and the
    response line with the fragments appended to its label. *)
Definition exchange_lines (x : string * list string) : list string :=
  [user_line (fst x); (system_line ++ concat_all (snd x))%string].

(** A conversation as the loop sees it: each round is a submitting key
    followed by the messages that arrive before the next submission. *)
Definition conversation (rounds : list (TeaMsg * list TeaMsg)) : list TeaMsg :=
  flat_map (fun r => fst r :: snd r) rounds.

Definition round_ok (r : TeaMsg * list TeaMsg) : Prop :=
  is_submit (fst r) = true /\ forallb passive (snd r) = true.

(** ** The whole system: loop, requester, commands and channels *)

(** Where the event loop's goroutine stands. *)
Inductive LoopState : Type :=
| Running (m : model)
    (* between two calls of Update, on the current model m *)
| Blocked (m : model) (ch : Chan) (v : string) (rest : list Effect) (u : Updated)
    (* inside Update, at a send of v on ch nobody has received yet;
       the program's model is still m, u is what the call returns
       after the remaining effects *)
| Stopped (m : model)
| Crashed (reason : string).

(** - [waiters]: the channels the running [waitForDelta] commands are
      receiving from;
    - [inbox]: the results of finished commands the loop has not yet
      taken;
    - [stdout]: the lines printed so far. *)
Record Sys : Type := mkSys {
  loop : LoopState;
  requester : option ReqState;
  waiters : list Chan;
  inbox : list TeaMsg;
  stdout : list string
}.

Definition set_loop (s : Sys) (l : LoopState) : Sys :=
  mkSys l (requester s) (waiters s) (inbox s) (stdout s).

Definition set_requester (s : Sys) (st : ReqState) : Sys :=
  mkSys (loop s) (Some st) (waiters s) (inbox s) (stdout s).

Definition set_waiters (s : Sys) (w : list Chan) : Sys :=
  mkSys (loop s) (requester s) w (inbox s) (stdout s).

Definition set_inbox (s : Sys) (i : list TeaMsg) : Sys :=
  mkSys (loop s) (requester s) (waiters s) i (stdout s).

Definition set_stdout (s : Sys) (o : list string) : Sys :=
  mkSys (loop s) (requester s) (waiters s) (inbox s) o.

(** The runtime starts a command in a goroutine of its own; [tea.Quit]
    tells it to end the loop. *)
Definition spawn (s : Sys) (c : Command WidgetCmd) : Sys :=
  match c with
  | Quit =>
      match loop s with
      | Running m => set_loop s (Stopped m)
      | _ => s
      end
  | waitForDelta ch => set_waiters s (waiters s ++ [ch])
  | createChatCompletion => set_requester s req_init
  | widgetCmd _ => s
  end.

(** [Update] returns: its model becomes the current one and its
    commands start. *)
Definition complete (s : Sys) (u : Updated) : Sys :=
  fold_left spawn (cmd u) (set_loop s (Running (new_model u))).

(** The effects of a call of [Update] in order; a send suspends the
    loop until a receiver takes the value. *)
Fixpoint perform (s : Sys) (m : model) (effs : list Effect) (u : Updated) : Sys :=
  match effs with
  | [] => complete s u
  | Println x :: rest => perform (set_stdout s (stdout s ++ [x])) m rest u
  | Send ch v :: rest => set_loop s (Blocked m ch v rest u)
  end.

(** The loop takes a message: [Update] runs on the current model. *)
Definition dispatch (s : Sys) (m : model) (msg : TeaMsg) : Sys :=
  match Update m msg with
  | Panic reason => set_loop s (Crashed reason)
  | Ok u => perform s m (effects u) u
  end.

(** What the requester gives back to the runtime: the message its
    closure returns. *)
Fixpoint emit (s : Sys) (outs : list ReqOut) : Sys :=
  match outs with
  | [] => s
  | Emitted e :: rest => emit (set_inbox s (inbox s ++ [errMsg e])) rest
  | _ :: rest => emit s rest
  end.

(** Messages that reach the loop from the terminal and from the
    widgets' commands: keys, resizes, the widgets' own messages and
    their errors.  Fragments come from the program's commands only. *)
Definition from_terminal (msg : TeaMsg) : bool :=
  match msg with
  | KeyMsg _ | WindowSizeMsg _ _ | otherMsg _ | errMsg _ => true
  | deltaMsg _ => false
  end.

(** Events the completion service produces. *)
Definition from_service (ev : ReqEvent) : bool :=
  match ev with
  | Created _ _ | Recv _ _ => true
  | RecvInput _ | Sent => false
  end.

Inductive Action : Type :=
| Terminal (msg : TeaMsg)      (* the loop takes a key, resize or widget message *)
| Deliver (msg : TeaMsg)       (* the loop takes the result of a command *)
| Service (ev : ReqEvent)      (* a call of the requester to the service returns *)
| Submit (v : string)          (* hand-off on inputMessage: loop to requester *)
| Fragment (v : string)        (* hand-off on deltaMessage: requester to a waiter *)
| Stray (ch : Chan) (v : string). (* hand-off from the loop to a waiter *)

(** One step of the system.  A hand-off on an unbuffered channel is a
    joint step of the sender and one receiver. *)
Inductive step : Sys -> Action -> Sys -> Prop :=
| step_terminal s m msg :
    loop s = Running m ->
    from_terminal msg = true ->
    step s (Terminal msg) (dispatch s m msg)
| step_deliver s m pre msg post :
    loop s = Running m ->
    inbox s = pre ++ msg :: post ->
    step s (Deliver msg) (dispatch (set_inbox s (pre ++ post)) m msg)
| step_service s st ev st' outs :
    requester s = Some st ->
    from_service ev = true ->
    req_step st ev = Some (st', outs) ->
    step s (Service ev) (emit (set_requester s st') outs)
| step_submit s m v rest u st st' outs :
    loop s = Blocked m inputMessage v rest u ->
    requester s = Some st ->
    req_step st (RecvInput v) = Some (st', outs) ->
    step s (Submit v) (perform (emit (set_requester s st') outs) m rest u)
| step_fragment s st frag stream pre post st' outs :
    requester s = Some st ->
    pc st = Forwarding frag stream ->
    waiters s = pre ++ deltaMessage :: post ->
    req_step st Sent = Some (st', outs) ->
    step s (Fragment frag)
      (emit (set_inbox (set_waiters (set_requester s st') (pre ++ post))
                       (inbox s ++ [deltaMsg frag])) outs)
| step_stray s m ch v rest u pre post :
    loop s = Blocked m ch v rest u ->
    waiters s = pre ++ ch :: post ->
    step s (Stray ch v)
      (perform (set_inbox (set_waiters s (pre ++ post)) (inbox s ++ [deltaMsg v])) m rest u).

Inductive steps : Sys -> list Action -> Sys -> Prop :=
| steps_nil s : steps s [] s
| steps_cons s a s' l s'' : step s a s' -> steps s' l s'' -> steps s (a :: l) s''.

(** The program as the runtime starts it: the initial model and the
    commands of [Init]. *)
Definition sys_init (env : Environ) : Sys :=
  let m := initialModel env in
  fold_left spawn (Init m)
    {| loop := Running m; requester := None; waiters := []; inbox := []; stdout := [] |}.

Definition reachable (env : Environ) (s : Sys) : Prop :=
  exists l, steps (sys_init env) l s.

(** The model the program shows. *)
Definition shown (l : LoopState) : option model :=
  match l with
  | Running m | Blocked m _ _ _ _ | Stopped m => Some m
  | Crashed _ => None
  end.

(** The waits for a fragment that are under way: commands still
    receiving, and fragments received but not yet handled. *)
Definition armed (s : Sys) : nat :=
  (List.length (waiters s) + List.length (filter is_delta (inbox s)))%nat.

(** What holds of every state the program reaches:
    - the requester runs, and as long as the transcript is empty it
      has not left its first wait and no fragment is under way;
    - [Update] has not panicked;
    - every wait is on the fragment channel, and exactly one is armed;
    - the loop blocks only in the send of a submission, whose call of
      [Update] has appended its lines and returns widget commands. *)
Definition invariant (s : Sys) : Prop :=
  (exists st, requester s = Some st
     /\ forall m, shown (loop s) = Some m -> messages m = [] ->
          pc st = AwaitInput /\ filter is_delta (inbox s) = [])
  /\ (forall reason, loop s <> Crashed reason)
  /\ Forall (eq deltaMessage) (waiters s)
  /\ armed s = 1%nat
  /\ (forall m ch v rest u, loop s = Blocked m ch v rest u ->
        ch = inputMessage /\ rest = []
        /\ messages (new_model u) <> [] /\ forallb is_widget (cmd u) = true).

(** The read that ends a stream cleanly. *)
Definition end_of_stream (a : Action) : Prop :=
  exists r e, a = Service (Recv r e) /\ errors_Is e (Some io_EOF) = true.

(** Actions in which the loop handles a message. *)
Definition ui_update (a : Action) : bool :=
  match a with
  | Terminal _ | Deliver _ => true
  | _ => false
  end.

(** ** Further notions for runs and executions *)

Definition is_createChatCompletion (c : Command WidgetCmd) : bool :=
  match c with createChatCompletion => true | _ => false end.

(** A transcript after some handling of messages, against the one
    before: every line but the last is where it was, the last line has
    at most grown at its end, and lines may have been added. *)
Definition extends (old new : list string) : Prop :=
  old = []
  \/ exists pre line suffix more,
       old = pre ++ [line] /\ new = pre ++ (line ++ suffix)%string :: more.

(** The error a run leaves in the model: the last one among its
    messages, else the one that was there. *)
Fixpoint last_error (msgs : list TeaMsg) (before : option error) : option error :=
  match msgs with
  | errMsg e :: rest => last_error rest (Some e)
  | _ :: rest => last_error rest before
  | [] => before
  end.



(** The viewport shows the transcript: the welcome text as long as
    there is no line, then the lines joined by newlines.  [content]
    reads what a viewport displays. *)
Definition synced (content : viewport_Model -> string) (m : model) : Prop :=
  content (viewport m)
  = match messages m with
    | [] => welcome
    | _ => strings_Join (messages m) newline
    end.

(** The fragments an execution hands to waiting commands, and the
    fragments the loop takes, each in order. *)
Fixpoint handed (acts : list Action) : list string :=
  match acts with
  | Fragment v :: rest => v :: handed rest
  | Stray _ v :: rest => v :: handed rest
  | _ :: rest => handed rest
  | [] => []
  end.

Fixpoint taken (acts : list Action) : list string :=
  match acts with
  | Deliver (deltaMsg v) :: rest => v :: taken rest
  | _ :: rest => taken rest
  | [] => []
  end.


(** * Properties *)

(** ** One call of [Update] *)

Lemma delegate_messages (m : model) cmds effs (msg : TeaMsg) :
  messages (new_model (delegate m cmds effs msg)) = messages m.
Proof.
  unfold delegate.
  destruct (textarea_Update (textarea m) msg), (viewport_Update (viewport m) msg).
  reflexivity.
Qed.

Lemma delegate_effects (m : model) cmds effs (msg : TeaMsg) :
  effects (delegate m cmds effs msg) = effs.
Proof.
  unfold delegate.
  destruct (textarea_Update (textarea m) msg), (viewport_Update (viewport m) msg).
  reflexivity.
Qed.

Lemma delegate_fields (m : model) cmds effs (msg : TeaMsg) :
  let m' := new_model (delegate m cmds effs msg) in
  width m' = width m /\ height m' = height m /\ err m' = err m
  /\ textarea m' = fst (textarea_Update (textarea m) msg)
  /\ viewport m' = fst (viewport_Update (viewport m) msg).
Proof.
  unfold delegate.
  destruct (textarea_Update (textarea m) msg), (viewport_Update (viewport m) msg).
  simpl. repeat split.
Qed.

Lemma delegate_cmd (m : model) cmds effs (msg : TeaMsg) :
  cmd (delegate m cmds effs msg)
  = List.concat cmds
    ++ map (@widgetCmd _) (snd (textarea_Update (textarea m) msg))
    ++ map (@widgetCmd _) (snd (viewport_Update (viewport m) msg)).
Proof.
  unfold delegate, tea_Batch.
  destruct (textarea_Update (textarea m) msg), (viewport_Update (viewport m) msg).
  simpl. rewrite concat_app. simpl. rewrite app_nil_r. reflexivity.
Qed.

Lemma widget_cmds_no_Quit (l : list WidgetCmd) :
  existsb is_Quit (map (@widgetCmd _) l) = false.
Proof. induction l; simpl; auto. Qed.

Lemma widget_cmds_no_wait (l : list WidgetCmd) :
  filter is_waitForDelta (map (@widgetCmd _) l) = [].
Proof. induction l; simpl; auto. Qed.

(** The last line of a non-empty slice is the one [len-1] indexes. *)
Lemma append_at_last (pre : list string) (line s : string) :
  append_at (pre ++ [line]) (Z.of_nat (List.length (pre ++ [line])) - 1) s
  = Ok (pre ++ [(line ++ s)%string]).
Proof.
  unfold append_at. rewrite length_app. simpl List.length.
  replace (Z.of_nat (List.length pre + 1) - 1) with (Z.of_nat (List.length pre)) by lia.
  replace (Z.of_nat (List.length pre) <? 0) with false by (symmetry; apply Z.ltb_ge; lia).
  replace (Z.of_nat (List.length pre + 1) <=? Z.of_nat (List.length pre)) with false
    by (symmetry; apply Z.leb_gt; lia).
  cbn [orb]. rewrite Nat2Z.id.
  rewrite nth_error_app2 by lia. rewrite Nat.sub_diag. cbn [nth_error].
  rewrite firstn_app, firstn_all, Nat.sub_diag. cbn [firstn]. rewrite app_nil_r.
  rewrite skipn_all2 by (rewrite length_app; simpl; lia).
  reflexivity.
Qed.

Lemma append_at_empty (s : string) :
  append_at [] (Z.of_nat (List.length (@nil string)) - 1) s = Panic "index out of range".
Proof. reflexivity. Qed.

Lemma nonempty_snoc (A : Type) (l : list A) :
  l <> [] -> exists pre x, l = pre ++ [x].
Proof.
  intros H. destruct (exists_last H) as [pre [x E]]. eauto.
Qed.

Lemma widget_cmds_widget (l : list WidgetCmd) :
  forallb is_widget (map (@widgetCmd _) l) = true.
Proof. induction l; simpl; auto. Qed.

Lemma delegate_widget_only (m : model) effs (msg : TeaMsg) :
  forallb is_widget (cmd (delegate m [] effs msg)) = true.
Proof.
  rewrite delegate_cmd. simpl. rewrite forallb_app, !widget_cmds_widget. reflexivity.
Qed.

Lemma widget_only_no_Quit (l : Cmd) :
  forallb is_widget l = true -> existsb is_Quit l = false.
Proof.
  induction l as [|c l IH]; simpl; auto.
  destruct c; simpl; try discriminate. auto.
Qed.

Lemma widget_only_no_wait (l : Cmd) :
  forallb is_widget l = true -> filter is_waitForDelta l = [].
Proof.
  induction l as [|c l IH]; simpl; auto.
  destruct c; simpl; try discriminate. auto.
Qed.

(** The submit key: two lines are appended and the text is handed off. *)
Lemma Update_submit (m : model) (k : Key) :
  Type_ k = KeyEnter ->
  exists u, Update m (KeyMsg k) = Ok u
    /\ messages (new_model u)
       = messages m ++ [user_line (textarea_Value (textarea m)); system_line]
    /\ effects u = [Send inputMessage (textarea_Value (textarea m))]
    /\ forallb is_widget (cmd u) = true.
Proof.
  intros Hk. unfold Update. rewrite Hk.
  eexists. split; [reflexivity|].
  rewrite delegate_messages, delegate_effects, delegate_widget_only. simpl.
  rewrite <- app_assoc. repeat split.
Qed.

(** A fragment on a non-empty transcript extends its last line and
    re-arms the wait. *)
Lemma Update_delta (m : model) (pre : list string) (line s : string) :
  messages m = pre ++ [line] ->
  exists u, Update m (deltaMsg s) = Ok u
    /\ messages (new_model u) = pre ++ [(line ++ s)%string]
    /\ effects u = []
    /\ exists ws, cmd u = waitForDelta deltaMessage :: ws /\ forallb is_widget ws = true.
Proof.
  intros Hm. unfold Update. rewrite Hm, append_at_last.
  eexists. split; [reflexivity|].
  rewrite delegate_messages, delegate_effects, delegate_cmd. simpl.
  repeat split. eexists. split; [reflexivity|].
  rewrite forallb_app, !widget_cmds_widget. reflexivity.
Qed.

(** On an empty transcript the index [len-1] is out of range. *)
Lemma Update_delta_empty (m : model) (s : string) :
  messages m = [] -> Update m (deltaMsg s) = Panic "index out of range".
Proof. intros Hm. unfold Update. rewrite Hm. reflexivity. Qed.

(** The quit keys: the pending input is printed and the model returned
    as it was. *)
Lemma Update_quit (m : model) (k : Key) :
  Type_ k = KeyCtrlC \/ Type_ k = KeyEsc ->
  Update m (KeyMsg k)
  = Ok {| new_model := m; cmd := [Quit];
          effects := [Println (textarea_Value (textarea m))] |}.
Proof. intros [Hk|Hk]; unfold Update; rewrite Hk; reflexivity. Qed.

Lemma Update_errMsg (m : model) (e : error) :
  Update m (errMsg e)
  = Ok {| new_model := set_err m (Some e); cmd := []; effects := [] |}.
Proof. reflexivity. Qed.

(** Every other message leaves the transcript alone. *)
Lemma Update_passive (m : model) (msg : TeaMsg) :
  passive msg = true -> is_delta msg = false ->
  exists u, Update m msg = Ok u
    /\ messages (new_model u) = messages m
    /\ effects u = []
    /\ forallb is_widget (cmd u) = true.
Proof.
  intros Hp Hd. destruct msg as [k|w h|s|e|o]; simpl in *; try discriminate.
  - unfold passive in Hp. simpl in Hp.
    destruct (Type_ k) eqn:Hk; try discriminate;
      (eexists; split; [reflexivity|];
       rewrite delegate_messages, delegate_effects, delegate_widget_only; repeat split).
  - eexists. split; [reflexivity|].
    rewrite delegate_messages, delegate_effects, delegate_widget_only. repeat split.
  - eexists. split; [reflexivity|]. repeat split.
  - eexists. split; [reflexivity|].
    rewrite delegate_messages, delegate_effects, delegate_widget_only. repeat split.
Qed.

(** ** Runs of the event loop *)


Lemma eventLoop_cons_ok (m : model) (msg : TeaMsg) (rest : list TeaMsg) (u : Updated) (r : Run) :
  Update m msg = Ok u -> existsb is_Quit (cmd u) = false ->
  eventLoop (new_model u) rest = Ok r ->
  eventLoop m (msg :: rest)
  = Ok {| final := final r; issued := cmd u ++ issued r;
          performed := effects u ++ performed r; quit := quit r |}.
Proof. intros Hu Hq Hr. simpl. rewrite Hu, Hq, Hr. reflexivity. Qed.

(** A run continues where the run of a prefix stopped. *)
Lemma eventLoop_app (l1 l2 : list TeaMsg) : forall (m : model) (r1 r2 : Run),
  eventLoop m l1 = Ok r1 -> quit r1 = false ->
  eventLoop (final r1) l2 = Ok r2 ->
  eventLoop m (l1 ++ l2)
  = Ok {| final := final r2; issued := issued r1 ++ issued r2;
          performed := performed r1 ++ performed r2; quit := quit r2 |}.
Proof.
  induction l1 as [|msg l1 IH]; intros m r1 r2 H1 Hq H2.
  - simpl in H1. injection H1 as <-. simpl in *. rewrite H2. destruct r2; reflexivity.
  - simpl in H1. destruct (Update m msg) as [u|] eqn:Hu; [|discriminate].
    destruct (existsb is_Quit (cmd u)) eqn:Hquit.
    + injection H1 as <-. simpl in Hq. discriminate.
    + destruct (eventLoop (new_model u) l1) as [r|] eqn:Hr; [|discriminate].
      injection H1 as <-. simpl in *.
      rewrite Hu, Hquit. erewrite IH; eauto. simpl. rewrite !app_assoc. reflexivity.
Qed.

Lemma submitted_app (a b : list Effect) :
  submitted (a ++ b) = submitted a ++ submitted b.
Proof.
  induction a as [|e a IH]; simpl; auto.
  destruct e as [|ch v]; auto. destruct ch; simpl; auto. rewrite IH. reflexivity.
Qed.

Lemma concat_all_app (a b : list string) :
  concat_all (a ++ b) = (concat_all a ++ concat_all b)%string.
Proof.
  induction a as [|x a IH]; simpl; auto.
  rewrite IH. unfold concat_all. simpl.
  generalize (fold_right append "" a) (fold_right append "" b). intros p q.
  induction x; simpl; congruence.
Qed.

Lemma append_assoc (a b c : string) : ((a ++ b) ++ c = a ++ (b ++ c))%string.
Proof. induction a; simpl; congruence. Qed.

Lemma append_empty_r (a : string) : (a ++ "" = a)%string.
Proof. induction a; simpl; congruence. Qed.

(** Messages that neither submit nor quit extend the last line by the
    fragments among them and touch nothing else of the transcript. *)
Lemma eventLoop_passive (seg : list TeaMsg) : forall (m : model) (pre : list string) (line : string),
  forallb passive seg = true ->
  messages m = pre ++ [line] ->
  exists r, eventLoop m seg = Ok r
    /\ messages (final r) = pre ++ [(line ++ concat_all (fragments seg))%string]
    /\ submitted (performed r) = [] /\ printed (performed r) = [] /\ quit r = false.
Proof.
  induction seg as [|msg seg IH]; intros m pre line Hp Hm.
  - eexists. split; [reflexivity|]. simpl. rewrite append_empty_r. auto.
  - simpl in Hp. apply andb_true_iff in Hp as [Hmsg Hseg].
    destruct (is_delta msg) eqn:Hd.
    + destruct msg; try discriminate.
      destruct (Update_delta m pre line s Hm) as (u & Hu & Hmu & He & ws & Hc & Hw).
      destruct (IH (new_model u) pre (line ++ s)%string Hseg Hmu) as (r & Hr & Hmr & Hs & Hpr & Hq).
      eexists. split.
      { apply eventLoop_cons_ok with (u := u) (r := r); auto.
        rewrite Hc. simpl. apply widget_only_no_Quit; auto. }
      simpl. rewrite He, Hmr, append_assoc. auto.
    + destruct (Update_passive m msg Hmsg Hd) as (u & Hu & Hmu & He & Hw).
      rewrite <- Hmu in Hm.
      destruct (IH (new_model u) pre line Hseg Hm) as (r & Hr & Hmr & Hs & Hpr & Hq).
      eexists. split.
      { apply eventLoop_cons_ok with (u := u) (r := r); auto.
        apply widget_only_no_Quit; auto. }
      assert (Hf : fragments (msg :: seg) = fragments seg)
        by (destruct msg; simpl in *; auto; discriminate).
      rewrite Hf. simpl. rewrite He, Hmr. auto.
Qed.

(** Without fragments they leave the transcript as it is, empty or not. *)
Lemma eventLoop_typing (seg : list TeaMsg) : forall (m : model),
  forallb passive seg = true ->
  fragments seg = [] ->
  exists r, eventLoop m seg = Ok r
    /\ messages (final r) = messages m
    /\ submitted (performed r) = [] /\ printed (performed r) = [] /\ quit r = false.
Proof.
  induction seg as [|msg seg IH]; intros m Hp Hf.
  - eexists. split; [reflexivity|]. simpl. auto.
  - simpl in Hp. apply andb_true_iff in Hp as [Hmsg Hseg].
    assert (Hd : is_delta msg = false) by (destruct msg; simpl in *; auto; discriminate).
    assert (Hf' : fragments seg = []) by (destruct msg; simpl in *; auto; discriminate).
    destruct (Update_passive m msg Hmsg Hd) as (u & Hu & Hmu & He & Hw).
    destruct (IH (new_model u) Hseg Hf') as (r & Hr & Hmr & Hs & Hpr & Hq).
    eexists. split.
    { apply eventLoop_cons_ok with (u := u) (r := r); auto.
      apply widget_only_no_Quit; auto. }
    simpl. rewrite He, Hmr, Hmu. auto.
Qed.

(** One round: the submission appends the two lines, the messages that
    follow fill the response line. *)
Lemma eventLoop_round (m : model) (round : TeaMsg * list TeaMsg) :
  round_ok round ->
  exists r, eventLoop m (fst round :: snd round) = Ok r
    /\ messages (final r)
       = messages m ++ exchange_lines (textarea_Value (textarea m), fragments (snd round))
    /\ submitted (performed r) = [textarea_Value (textarea m)]
    /\ quit r = false.
Proof.
  destruct round as [key seg]. intros [Hk Hseg]. simpl in *.
  destruct key as [k| | | |]; try discriminate.
  assert (Hk' : Type_ k = KeyEnter) by (simpl in Hk; destruct (Type_ k); auto; discriminate).
  destruct (Update_submit m k Hk') as (u & Hu & Hmu & He & Hw).
  assert (Hmu' : messages (new_model u)
                 = (messages m ++ [user_line (textarea_Value (textarea m))]) ++ [system_line])
    by (rewrite Hmu, <- app_assoc; reflexivity).
  destruct (eventLoop_passive seg (new_model u) _ _ Hseg Hmu') as (r & Hr & Hmr & Hs & Hpr & Hq).
  eexists. split.
  { apply eventLoop_cons_ok with (u := u) (r := r); auto.
    apply widget_only_no_Quit; auto. }
  simpl. rewrite He, Hmr. simpl. rewrite Hs. unfold exchange_lines. simpl.
  rewrite <- app_assoc. auto.
Qed.

(** A conversation appends the two lines of each round, in order. *)
Lemma eventLoop_conversation (rounds : list (TeaMsg * list TeaMsg)) : forall (m : model),
  Forall round_ok rounds ->
  exists r, eventLoop m (conversation rounds) = Ok r
    /\ quit r = false
    /\ List.length (submitted (performed r)) = List.length rounds
    /\ messages (final r)
       = messages m
         ++ flat_map exchange_lines
              (combine (submitted (performed r)) (map (fun x => fragments (snd x)) rounds)).
Proof.
  induction rounds as [|round rounds IH]; intros m Hok.
  - eexists. split; [reflexivity|]. simpl. rewrite app_nil_r. auto.
  - inversion Hok as [|? ? Hround Hrest]; subst.
    destruct (eventLoop_round m Hround) as (r1 & Hr1 & Hm1 & Hs1 & Hq1).
    destruct (IH (final r1) Hrest) as (r2 & Hr2 & Hq2 & Hl2 & Hm2).
    eexists. split.
    { change (conversation (round :: rounds))
        with ((fst round :: snd round) ++ conversation rounds).
      apply eventLoop_app with (r1 := r1) (r2 := r2); auto. }
    simpl. rewrite submitted_app, Hs1. simpl.
    rewrite Hl2, Hm2, Hm1, <- app_assoc. auto.
Qed.

Lemma exchange_lines_length (texts : list string) : forall (frags : list (list string)),
  List.length texts = List.length frags ->
  List.length (flat_map exchange_lines (combine texts frags)) = (2 * List.length frags)%nat.
Proof.
  induction texts as [|t texts IH]; intros [|f frags] H; simpl in *; try discriminate; auto.
  rewrite IH by lia. lia.
Qed.

(** ** The requester *)

Lemma req_run_app (a b : list ReqEvent) : forall (st : ReqState),
  req_run st (a ++ b)
  = match req_run st a with
    | Some (st1, o1) =>
        match req_run st1 b with
        | Some (st2, o2) => Some (st2, o1 ++ o2)
        | None => None
        end
    | None => None
    end.
Proof.
  induction a as [|ev a IH]; intros st; simpl.
  - destruct (req_run st b) as [[st2 o2]|]; reflexivity.
  - destruct (req_step st ev) as [[st1 o1]|]; [|reflexivity].
    rewrite IH. destruct (req_run st1 a) as [[st2 o2]|]; [|reflexivity].
    destruct (req_run st2 b) as [[st3 o3]|]; [|reflexivity].
    rewrite app_assoc. reflexivity.
Qed.

(** Once its closure has returned the requester takes no event. *)
Lemma returned_is_final (st : ReqState) (e : error) (ev : ReqEvent) :
  pc st = Returned e -> req_step st ev = None.
Proof. intros H. unfold req_step. rewrite H. reflexivity. Qed.

Lemma returned_run (st : ReqState) (e : error) (evs : list ReqEvent) :
  pc st = Returned e -> evs <> [] -> req_run st evs = None.
Proof.
  intros H Hne. destruct evs as [|ev evs]; [congruence|].
  simpl. rewrite (returned_is_final st ev H). reflexivity.
Qed.

Lemma filter_Emitted_Closed (l : list Stream) :
  filter is_Emitted (map Closed l) = [].
Proof. induction l; simpl; auto. Qed.

(** A step emits an error exactly when it is the return of the closure. *)
Lemma req_step_emits (st st' : ReqState) (ev : ReqEvent) (outs : list ReqOut) :
  req_step st ev = Some (st', outs) ->
  (filter is_Emitted outs = [] /\ forall e, pc st' <> Returned e)
  \/ (exists e, pc st' = Returned e /\ filter is_Emitted outs = [Emitted e]).
Proof.
  unfold req_step, req_return. intros H.
  destruct (pc st) eqn:Hpc, ev as [text|s oe|r oe|]; try discriminate.
  - injection H as <- <-. left. simpl. split; [reflexivity|discriminate].
  - destruct oe as [e|]; injection H as <- <-.
    + right. exists e. simpl. rewrite filter_app, filter_Emitted_Closed. split; reflexivity.
    + left. simpl. split; [reflexivity|discriminate].
  - destruct (errors_Is oe (Some io_EOF)).
    + injection H as <- <-. left. simpl. split; [reflexivity|discriminate].
    + destruct oe as [e|].
      * injection H as <- <-. right. exists e. simpl.
        rewrite filter_app, filter_Emitted_Closed. split; reflexivity.
      * destruct (Choices r); injection H as <- <-; left; simpl;
          rewrite ?filter_Emitted_Closed; (split; [reflexivity|discriminate]).
  - injection H as <- <-. left. simpl. split; [reflexivity|discriminate].
Qed.

(** A run emits at most one error, and only as its last act. *)
Lemma req_run_emits (evs : list ReqEvent) : forall (st st' : ReqState) (outs : list ReqOut),
  req_run st evs = Some (st', outs) ->
  (filter is_Emitted outs = [] /\ (forall e, pc st <> Returned e) -> forall e, pc st' <> Returned e)
  /\ (filter is_Emitted outs = []
      \/ exists e, pc st' = Returned e /\ filter is_Emitted outs = [Emitted e]).
Proof.
  induction evs as [|ev evs IH]; intros st st' outs H; simpl in H.
  - injection H as <- <-. split; [tauto|]. left. reflexivity.
  - destruct (req_step st ev) as [[st1 o1]|] eqn:Hstep; [|discriminate].
    destruct (req_run st1 evs) as [[st2 o2]|] eqn:Hrun; [|discriminate].
    injection H as <- <-.
    destruct (req_step_emits st ev Hstep) as [[Hnone Hpc]|(e & Hpc & Hone)].
    + destruct (IH _ _ _ Hrun) as [IH1 IH2].
      rewrite filter_app, Hnone. simpl. split; [|exact IH2].
      intros [Hf _]. apply IH1. split; assumption.
    + destruct evs as [|ev' evs].
      * simpl in Hrun. injection Hrun as <- <-.
        rewrite app_nil_r. split.
        -- intros [Hf _]. rewrite Hone in Hf. discriminate.
        -- right. exists e. split; assumption.
      * rewrite (returned_run st1 (evs := ev' :: evs) Hpc) in Hrun by discriminate.
        discriminate.
Qed.

(** The inner loop: every chunk is forwarded, the end of the stream
    leads back to the wait for input. *)
Lemma receiving_loop (stream : Stream) (last : ChatCompletionStreamResponse) (eof : error)
    (chunks : list ChatCompletionStreamResponse) : forall (st : ReqState),
  pc st = Receiving stream ->
  Forall (fun r => Choices r <> []) chunks ->
  errors_Is (Some eof) (Some io_EOF) = true ->
  req_run st (flat_map (fun r => [Recv r None; Sent]) chunks ++ [Recv last (Some eof)])
  = Some ({| pc := AwaitInput; deferred := deferred st |},
          map (fun r => Forwarded (fragment_of r)) chunks).
Proof.
  induction chunks as [|r chunks IH]; intros st Hpc Hne Heof.
  - simpl. unfold req_step. rewrite Hpc, Heof. reflexivity.
  - inversion Hne as [|? ? Hr Hrest]; subst.
    change (flat_map (fun r => [Recv r None; Sent]) (r :: chunks) ++ [Recv last (Some eof)])
      with (Recv r None :: Sent
              :: (flat_map (fun r => [Recv r None; Sent]) chunks ++ [Recv last (Some eof)])).
    cbn [req_run]. unfold req_step at 1. rewrite Hpc. cbn [errors_Is].
    destruct (Choices r) as [|choice others] eqn:Hc; [congruence|].
    unfold req_step at 1. cbn [pc deferred].
    assert (Hfr : fragment_of r = Delta_Content choice)
      by (unfold fragment_of; rewrite Hc; reflexivity).
    rewrite IH; auto.
    cbn [map pc deferred app]. rewrite Hfr. reflexivity.
Qed.

(** ** The whole system *)

Lemma spawn_widgets (cmds : Cmd) : forall (s : Sys),
  forallb is_widget cmds = true -> fold_left spawn cmds s = s.
Proof.
  induction cmds as [|c cmds IH]; intros s H; simpl in *; auto.
  apply andb_true_iff in H as [Hc Hrest].
  destruct c; try discriminate. simpl. auto.
Qed.

Lemma emit_fields (outs : list ReqOut) : forall (s : Sys),
  loop (emit s outs) = loop s
  /\ requester (emit s outs) = requester s
  /\ waiters (emit s outs) = waiters s
  /\ stdout (emit s outs) = stdout s
  /\ filter is_delta (inbox (emit s outs)) = filter is_delta (inbox s).
Proof.
  induction outs as [|o outs IH]; intros s; simpl; auto.
  destruct o; auto.
  destruct (IH (set_inbox s (inbox s ++ [errMsg e]))) as (Hl & Hr & Hw & Ho & Hi).
  rewrite Hl, Hr, Hw, Ho, Hi. simpl. rewrite filter_app. simpl. rewrite app_nil_r. auto.
Qed.

(** What handling a message does to the system, by the kind of the
    message. *)
Lemma dispatch_cases (s : Sys) (m : model) (msg : TeaMsg) :
  (is_quit msg = true
   /\ dispatch s m msg
      = set_loop (set_stdout s (stdout s ++ [textarea_Value (textarea m)])) (Stopped m))
  \/ (is_submit msg = true
      /\ exists u, dispatch s m msg
                   = set_loop s (Blocked m inputMessage (textarea_Value (textarea m)) [] u)
         /\ messages (new_model u) <> [] /\ forallb is_widget (cmd u) = true)
  \/ (is_delta msg = true /\ messages m = []
      /\ exists reason, dispatch s m msg = set_loop s (Crashed reason))
  \/ (is_delta msg = true /\ messages m <> []
      /\ exists m', dispatch s m msg
                    = set_waiters (set_loop s (Running m')) (waiters s ++ [deltaMessage])
         /\ messages m' <> [])
  \/ (is_delta msg = false
      /\ exists m', dispatch s m msg = set_loop s (Running m')
         /\ messages m' = messages m).
Proof.
  unfold dispatch.
  destruct (is_quit msg) eqn:Hq; [|destruct (is_submit msg) eqn:Hs; [|destruct (is_delta msg) eqn:Hd]].
  - left. split; [reflexivity|].
    destruct msg as [k| | | |]; try discriminate.
    rewrite (Update_quit m k) by (simpl in Hq; destruct (Type_ k); auto; discriminate).
    reflexivity.
  - right; left. split; [reflexivity|].
    destruct msg as [k| | | |]; try discriminate.
    assert (Hk : Type_ k = KeyEnter) by (simpl in Hs; destruct (Type_ k); auto; discriminate).
    destruct (Update_submit m k Hk) as (u & Hu & Hm & He & Hw).
    rewrite Hu, He. exists u. simpl. repeat split; auto.
    rewrite Hm. intros Habs. apply app_eq_nil in Habs as [_ Habs]. discriminate.
  - destruct msg as [|  |f| |]; try discriminate.
    destruct (messages m) as [|l0 ls] eqn:Hm.
    + right; right; left. repeat split.
      rewrite (Update_delta_empty m f Hm). eauto.
    + right; right; right; left. split; [reflexivity|]. split; [discriminate|].
      destruct (@nonempty_snoc _ (l0 :: ls)) as (pre & line & Hsnoc); [discriminate|].
      rewrite Hsnoc in Hm.
      destruct (Update_delta m pre line f Hm) as (u & Hu & Hmu & He & ws & Hc & Hw).
      rewrite Hu, He. simpl. unfold complete. rewrite Hc. simpl.
      rewrite spawn_widgets by exact Hw.
      exists (new_model u). split; [reflexivity|].
      rewrite Hmu. intros Habs. apply app_eq_nil in Habs as [_ Habs]. discriminate.
  - right; right; right; right. split; [reflexivity|].
    assert (Hp : passive msg = true) by (unfold passive; rewrite Hq, Hs; reflexivity).
    destruct (Update_passive m msg Hp Hd) as (u & Hu & Hm & He & Hw).
    rewrite Hu, He. simpl. unfold complete. rewrite spawn_widgets by exact Hw.
    eauto.
Qed.

Lemma filter_delta_remove (pre post : list TeaMsg) (msg : TeaMsg) :
  List.length (filter is_delta (pre ++ msg :: post))
  = (List.length (filter is_delta (pre ++ post)) + (if is_delta msg then 1 else 0))%nat.
Proof.
  rewrite !filter_app, !length_app. simpl.
  destruct (is_delta msg); simpl; lia.
Qed.

Lemma invariant_init (env : Environ) : invariant (sys_init env).
Proof.
  unfold invariant, sys_init. simpl.
  split; [|split; [|split; [|split]]].
  - exists req_init. split; [reflexivity|]. intros m _ _. split; reflexivity.
  - discriminate.
  - repeat constructor.
  - reflexivity.
  - discriminate.
Qed.

(** Handling a message keeps the invariant, provided a fragment is
    handled only when the transcript is non-empty and its wait is the
    one that was armed. *)
Lemma invariant_dispatch (s : Sys) (m : model) (msg : TeaMsg) :
  loop s = Running m ->
  (exists st, requester s = Some st
     /\ (messages m = [] ->
         pc st = AwaitInput /\ filter is_delta (inbox s) = [] /\ is_delta msg = false)) ->
  Forall (eq deltaMessage) (waiters s) ->
  (armed s + (if is_delta msg then 1 else 0) = 1)%nat ->
  invariant (dispatch s m msg).
Proof.
  intros Hloop (st & Hreq & Hempty) Hwait Harmed.
  unfold armed in Harmed.
  destruct (dispatch_cases s m msg)
    as [(Hk & ->)|[(Hk & u & -> & Hmu & Hw)|[(Hd & Hm & r & ->)
       |[(Hd & Hm & m' & -> & Hm')|(Hd & m' & -> & Hm')]]]];
    unfold invariant, armed; simpl.
  - assert (Hd : is_delta msg = false) by (destruct msg; auto; discriminate).
    rewrite Hd in Harmed.
    split; [|split; [|split; [|split]]]; auto; try discriminate.
    + exists st. split; auto. intros m0 [= <-] Hm0. destruct (Hempty Hm0) as (? & ? & ?); auto.
    + lia.
  - assert (Hd : is_delta msg = false) by (destruct msg; auto; discriminate).
    rewrite Hd in Harmed.
    split; [|split; [|split; [|split]]]; auto; try discriminate.
    + exists st. split; auto. intros m0 [= <-] Hm0. destruct (Hempty Hm0) as (? & ? & ?); auto.
    + lia.
    + intros m0 ch v rest u0 [= <- <- <- <- <-]. auto.
  - destruct (Hempty Hm) as (_ & _ & Hnd). congruence.
  - rewrite Hd in Harmed.
    split; [|split; [|split; [|split]]]; auto; try discriminate.
    + exists st. split; auto. intros m0 [= <-] Hm0. contradiction.
    + apply Forall_app. split; auto.
    + rewrite length_app. simpl. lia.
  - rewrite Hd in Harmed.
    split; [|split; [|split; [|split]]]; auto; try discriminate.
    + exists st. split; auto. intros m0 [= <-] Hm0. rewrite Hm' in Hm0.
      destruct (Hempty Hm0) as (? & ? & ?); auto.
    + lia.
Qed.

Lemma awaiting_takes_input_only (st st' : ReqState) (ev : ReqEvent) (outs : list ReqOut) :
  pc st = AwaitInput -> req_step st ev = Some (st', outs) -> from_service ev = false.
Proof.
  intros Hpc H. unfold req_step in H. rewrite Hpc in H.
  destruct ev; try discriminate; reflexivity.
Qed.

(** Every step of the system keeps the invariant. *)
Lemma invariant_step (s s' : Sys) (a : Action) :
  invariant s -> step s a s' -> invariant s'.
Proof.
  intros (Hreq & Hcrash & Hwait & Harmed & Hblocked) Hstep.
  destruct Hreq as (st0 & Hst0 & Hempty).
  destruct Hstep as [s m msg Hloop Hterm | s m pre msg post Hloop Hin
                    | s st ev st' outs Hr Hsvc Hstep
                    | s m v rest u st st' outs Hloop Hr Hstep
                    | s st frag stream pre post st' outs Hr Hpc Hw Hstep
                    | s m ch v rest u pre post Hloop Hw].
  - (* a message from the terminal *)
    assert (Hd : is_delta msg = false) by (destruct msg; auto; discriminate).
    apply invariant_dispatch; auto.
    + exists st0. split; auto. intros Hm.
      destruct (Hempty m) as [? ?]; auto. rewrite Hloop. reflexivity.
    + rewrite Hd. lia.
  - (* the result of a command *)
    unfold armed in Harmed. rewrite Hin, filter_delta_remove in Harmed.
    apply invariant_dispatch; auto.
    + exists st0. split; auto. simpl. intros Hm.
      destruct (Hempty m) as [Hpc Hnone]; auto. { rewrite Hloop. reflexivity. }
      rewrite Hin in Hnone.
      rewrite filter_app in Hnone. apply app_eq_nil in Hnone as [Hpre Hpost].
      simpl in Hpost. destruct (is_delta msg); [discriminate|].
      rewrite filter_app, Hpre, Hpost. auto.
    + unfold armed. simpl. lia.
  - (* the service answers the requester *)
    rewrite Hst0 in Hr. injection Hr as <-.
    destruct (emit_fields outs (set_requester s st')) as (El & Er & Ew & Eo & Ei).
    unfold invariant, armed. rewrite El, Er, Ew, Ei. simpl.
    split; [|split; [|split; [|split]]]; auto.
    exists st'. split; auto. intros m Hshown Hm.
    destruct (Hempty m Hshown Hm) as [Hpc _].
    rewrite (awaiting_takes_input_only st0 ev Hpc Hstep) in Hsvc. discriminate.
  - (* the requester takes a submission *)
    destruct (Hblocked _ _ _ _ _ Hloop) as (_ & -> & Hmu & Hwid).
    destruct (emit_fields outs (set_requester s st')) as (El & Er & Ew & Eo & Ei).
    simpl. unfold complete. rewrite spawn_widgets by exact Hwid.
    unfold invariant, armed. simpl. rewrite Er, Ew, Ei. simpl.
    split; [|split; [|split; [|split]]]; auto; try discriminate.
    exists st'. split; auto. intros m0 [= <-] Hm0. contradiction.
  - (* a waiting command takes a fragment *)
    rewrite Hst0 in Hr. injection Hr as <-.
    match goal with |- invariant (emit ?x outs) =>
      destruct (emit_fields outs x) as (El & Er & Ew & Eo & Ei) end.
    unfold invariant, armed. rewrite El, Er, Ew, Ei. simpl.
    unfold armed in Harmed. rewrite Hw in Harmed, Hwait.
    rewrite length_app in Harmed. simpl in Harmed.
    split; [|split; [|split; [|split]]]; auto.
    + exists st'. split; auto. intros m Hshown Hm.
      destruct (Hempty m Hshown Hm) as [Hpc0 _]. congruence.
    + apply Forall_app in Hwait as [Hpre Hpost]. inversion Hpost; subst.
      apply Forall_app. split; auto.
    + rewrite filter_app, !length_app. simpl. lia.
  - (* the loop never sends to a waiting command *)
    destruct (Hblocked _ _ _ _ _ Hloop) as (-> & _).
    rewrite Hw in Hwait. apply Forall_app in Hwait as [_ Hpost].
    inversion Hpost; subst. discriminate.
Qed.

(** The requester comes back to its wait for input only by reading
    the clean end of a stream. *)
Lemma back_to_input (st st' : ReqState) (ev : ReqEvent) (outs : list ReqOut) :
  req_step st ev = Some (st', outs) ->
  pc st <> AwaitInput -> pc st' = AwaitInput ->
  exists r e, ev = Recv r e /\ errors_Is e (Some io_EOF) = true.
Proof.
  unfold req_step, req_return. intros H Hne Hpc.
  destruct (pc st) eqn:E, ev as [text|s oe|r oe|]; try discriminate; try congruence.
  - destruct oe; injection H as <- <-; discriminate.
  - destruct (errors_Is oe (Some io_EOF)) eqn:Heof; [eauto|].
    destruct oe; [injection H as <- <-; discriminate|].
    destruct (Choices r); injection H as <- <-; discriminate.
  - injection H as <- <-. discriminate.
Qed.

Lemma takes_input_when_awaiting (st st' : ReqState) (v : string) (outs : list ReqOut) :
  req_step st (RecvInput v) = Some (st', outs) -> pc st = AwaitInput.
Proof.
  unfold req_step. destruct (pc st); try discriminate. reflexivity.
Qed.

(** While the loop is blocked in a send, a step either is the hand-off
    of that very text to a requester waiting for input, or is a step
    of the requester alone, which leaves the loop where it is. *)
Lemma blocked_step (s s' : Sys) (a : Action) m ch v rest u :
  invariant s -> loop s = Blocked m ch v rest u -> step s a s' ->
  (a = Submit v /\ exists st, requester s = Some st /\ pc st = AwaitInput)
  \/ (loop s' = loop s /\ ui_update a = false
      /\ exists st0 st1 ev outs,
           requester s = Some st0 /\ requester s' = Some st1
           /\ req_step st0 ev = Some (st1, outs)
           /\ (a = Service ev \/ ev = Sent)).
Proof.
  intros (_ & _ & Hwait & _ & Hblocked) Hloop Hstep.
  destruct Hstep as [s m0 msg Hl Hterm | s m0 pre msg post Hl Hin
                    | s st ev st' outs Hr Hsvc Hstep
                    | s m0 v0 rest0 u0 st st' outs Hl Hr Hstep
                    | s st frag stream pre post st' outs Hr Hpc Hw Hstep
                    | s m0 ch0 v0 rest0 u0 pre post Hl Hw];
    try congruence.
  - right. destruct (emit_fields outs (set_requester s st')) as (El & Er & _).
    rewrite El, Er. simpl. repeat split. exists st, st', ev, outs. auto.
  - left. rewrite Hl in Hloop. injection Hloop as <- <- <- <- <-.
    split; [reflexivity|]. exists st. split; auto.
    eapply takes_input_when_awaiting; eauto.
  - right.
    match goal with |- loop (emit ?x outs) = _ /\ _ =>
      destruct (emit_fields outs x) as (El & Er & _) end.
    rewrite El, Er. simpl. repeat split. exists st, st', Sent, outs. auto.
  - destruct (Hblocked _ _ _ _ _ Hl) as (-> & _).
    rewrite Hw in Hwait. apply Forall_app in Hwait as [_ Hpost].
    inversion Hpost; subst. discriminate.
Qed.

Lemma blocked_steps (acts : list Action) : forall (s s' : Sys) m ch v rest u,
  steps s acts s' -> invariant s -> loop s = Blocked m ch v rest u ->
  (loop s' = loop s
   /\ Forall (fun a => ui_update a = false) acts
   /\ forall st0 st', requester s = Some st0 -> pc st0 <> AwaitInput ->
         requester s' = Some st' -> pc st' = AwaitInput ->
         Exists end_of_stream acts)
  \/ (exists before after s1 st,
        acts = before ++ Submit v :: after
        /\ steps s before s1 /\ loop s1 = loop s
        /\ Forall (fun a => ui_update a = false) before
        /\ requester s1 = Some st /\ pc st = AwaitInput
        /\ forall st0, requester s = Some st0 -> pc st0 <> AwaitInput ->
              Exists end_of_stream before).
Proof.
  induction acts as [|a acts IH]; intros s s' m ch v rest u Hsteps Hinv Hloop.
  - inversion Hsteps; subst. left. split; [reflexivity|]. split; [constructor|].
    intros st0 st' H0 Hne H1 Hpc. congruence.
  - inversion Hsteps as [|? ? s1 ? ? Hstep Htail]; subst.
    destruct (blocked_step Hinv Hloop Hstep)
      as [(-> & st & Hr & Hpc)|(Hl1 & Hui & st0 & st1 & ev & outs & Hr0 & Hr1 & Hreq & Hev)].
    + right. exists [], acts, s, st. simpl. repeat split; auto.
      * constructor.
      * intros st0 H0 Hne. congruence.
    + assert (Hinv1 : invariant s1) by (eapply invariant_step; eauto).
      assert (Hloop1 : loop s1 = Blocked m ch v rest u) by congruence.
      assert (Hhead : pc st0 <> AwaitInput -> pc st1 = AwaitInput -> end_of_stream a).
      { intros Hne Hpc. destruct (back_to_input st0 ev Hreq Hne Hpc) as (r & e & -> & Heof).
        destruct Hev as [->|Hev]; [|discriminate]. exists r, e. auto. }
      destruct (IH s1 s' m ch v rest u Htail Hinv1 Hloop1)
        as [(Hl & Hall & Hback)|(before & after & s2 & st & -> & Hb & Hl & Hall & Hr & Hpc & Hback)].
      * left. split; [congruence|]. split; [constructor; auto|].
        intros st0' st' H0 Hne H1 Hpc. rewrite Hr0 in H0. injection H0 as <-.
        destruct (pc st1) eqn:E;
          try (apply Exists_cons_tl; apply (Hback st1 st'); auto; congruence).
        apply Exists_cons_hd. apply Hhead; auto.
      * right. exists (a :: before), after, s2, st. simpl.
        split; [reflexivity|]. split; [econstructor; eauto|].
        split; [congruence|]. split; [constructor; auto|]. split; [auto|]. split; [auto|].
        intros st0' H0 Hne. rewrite Hr0 in H0. injection H0 as <-.
        destruct (pc st1) eqn:E;
          try (apply Exists_cons_tl; apply (Hback st1); auto; congruence).
        apply Exists_cons_hd. apply Hhead; auto.
Qed.


Lemma invariant_steps (s s' : Sys) (l : list Action) :
  invariant s -> steps s l s' -> invariant s'.
Proof.
  intros Hinv Hsteps. induction Hsteps; auto.
  apply IHHsteps. eapply invariant_step; eauto.
Qed.

Lemma invariant_reachable (env : Environ) (s : Sys) :
  reachable env s -> invariant s.
Proof.
  intros [l Hl]. eapply invariant_steps; [apply invariant_init | exact Hl].
Qed.

(** * The claims of the design note *)

(** C1, as amended.  Whatever is typed first, a conversation of N rounds
    (a submission, then the messages that arrive before the next one)
    runs without fault and appends exactly 2N lines to the transcript:
    for each round the user line with the submitted text, then the
    response line, which is the "System: " label followed by the
    fragments of that round concatenated in arrival order. *)
Theorem transcript_of_conversation
    (m : model) (typing : list TeaMsg) (rounds : list (TeaMsg * list TeaMsg)) :
  forallb passive typing = true ->
  fragments typing = [] ->
  Forall round_ok rounds ->
  exists r, eventLoop m (typing ++ conversation rounds) = Ok r
    /\ List.length (submitted (performed r)) = List.length rounds
    /\ messages (final r)
       = messages m
         ++ flat_map exchange_lines
              (combine (submitted (performed r)) (map (fun x => fragments (snd x)) rounds))
    /\ List.length (messages (final r))
       = (List.length (messages m) + 2 * List.length rounds)%nat.
Proof.
  intros Htyping Hfrags Hrounds.
  destruct (eventLoop_typing typing m Htyping Hfrags) as (r1 & Hr1 & Hm1 & Hs1 & _ & Hq1).
  destruct (eventLoop_conversation (final r1) Hrounds) as (r2 & Hr2 & Hq2 & Hl2 & Hm2).
  eexists. split.
  { apply eventLoop_app with (r1 := r1) (r2 := r2); auto. }
  simpl. rewrite submitted_app, Hs1. simpl.
  split; [exact Hl2|]. split.
  - rewrite Hm2, Hm1. reflexivity.
  - rewrite Hm2, Hm1, length_app, exchange_lines_length.
    + rewrite length_map. reflexivity.
    + rewrite length_map. exact Hl2.
Qed.

(** C2.  The requester's cycle.  Waiting for input, it takes nothing
    but a submitted text; it then issues one streaming request whose
    only message carries that text, hands on the fragment of every
    chunk as it is and in order, and at the clean end of the stream
    is back at the wait for the next text. *)
Theorem requester_cycle
    (st : ReqState) (message : string) (stream : Stream)
    (chunks : list ChatCompletionStreamResponse)
    (last : ChatCompletionStreamResponse) (eof : error) :
  pc st = AwaitInput ->
  Forall (fun r => Choices r <> []) chunks ->
  errors_Is (Some eof) (Some io_EOF) = true ->
  (forall ev st' outs, req_step st ev = Some (st', outs) -> exists text, ev = RecvInput text)
  /\ req_run st (exchange_events message stream chunks last eof)
     = Some ({| pc := AwaitInput; deferred := stream :: deferred st |},
             Request {| Model := GPT3Dot5Turbo;
                        Messages := [ {| Role := ChatMessageRoleUser; Content := message |} ] |}
               :: map (fun r => Forwarded (fragment_of r)) chunks).
Proof.
  intros Hpc Hne Heof. split.
  - intros ev st' outs H. unfold req_step in H. rewrite Hpc in H.
    destruct ev; try discriminate. eauto.
  - unfold exchange_events. cbn [req_run].
    unfold req_step at 1. rewrite Hpc.
    unfold req_step at 1. cbn [pc deferred].
    rewrite (@receiving_loop stream last eof chunks); auto.
Qed.

(** C3.  The first failure ends the requester.  After any run, when the
    call that opens the stream fails, or a read fails with an error
    that is not the end of the stream, the requester returns that
    error: it is the only error event of the whole run, and no event
    is taken after it, neither a new submitted text nor the answer to
    another request. *)
Theorem requester_stops_at_first_error
    (evs : list ReqEvent) (st : ReqState) (outs : list ReqOut) (ev : ReqEvent) (e : error) :
  req_run req_init evs = Some (st, outs) ->
  fatal st ev = Some e ->
  exists st' outs',
    req_run req_init (evs ++ [ev]) = Some (st', outs')
    /\ pc st' = Returned e
    /\ outs' = outs ++ map Closed (deferred st) ++ [Emitted e]
    /\ filter is_Emitted outs' = [Emitted e]
    /\ filter is_Request outs' = filter is_Request outs
    /\ (forall next, req_step st' next = None)
    /\ (forall more, more <> [] -> req_run req_init (evs ++ ev :: more) = None).
Proof.
  intros Hrun Hfatal.
  assert (Hstep : req_step st ev = Some (req_return st e)).
  { unfold fatal in Hfatal. unfold req_step.
    destruct (pc st), ev as [text|s oe|r oe|]; try discriminate.
    - destruct oe; [injection Hfatal as ->; reflexivity | discriminate].
    - destruct oe as [e'|]; [|discriminate].
      destruct (errors_Is (Some e') (Some io_EOF)); [discriminate|].
      injection Hfatal as ->. reflexivity. }
  assert (Hquiet : filter is_Emitted outs = []).
  { destruct (req_run_emits evs req_init Hrun) as [_ [Hnone|(e' & Hpc & _)]]; auto.
    unfold fatal in Hfatal. rewrite Hpc in Hfatal. discriminate. }
  assert (Hclosed : forall l, filter is_Request (map Closed l) = [])
    by (induction l; simpl; auto).
  exists (fst (req_return st e)), (outs ++ snd (req_return st e)).
  split; [|split; [|split; [|split; [|split; [|split]]]]].
  - rewrite req_run_app, Hrun. simpl. rewrite Hstep. simpl. rewrite app_nil_r. reflexivity.
  - reflexivity.
  - reflexivity.
  - simpl. rewrite !filter_app, Hquiet, filter_Emitted_Closed. reflexivity.
  - simpl. rewrite !filter_app, Hclosed. simpl. rewrite app_nil_r. reflexivity.
  - intros next. apply returned_is_final with (e := e). reflexivity.
  - intros more Hmore. rewrite req_run_app, Hrun.
    change (ev :: more) with ([ev] ++ more). rewrite req_run_app.
    simpl. rewrite Hstep. simpl.
    rewrite (@returned_run {| pc := Returned e; deferred := [] |} e more); auto.
Qed.

(** C4.  An error event is recorded in the model and changes nothing
    else: transcript, viewport and text area stay as they are, no
    command is issued and nothing is sent or printed.  So a response
    line under construction keeps exactly the fragments applied to it
    before the failure. *)
Theorem error_leaves_transcript
    (m : model) (pre : list string) (line : string) (frags : list string) (e : error) :
  (exists u, Update m (errMsg e) = Ok u
     /\ err (new_model u) = Some e
     /\ messages (new_model u) = messages m
     /\ viewport (new_model u) = viewport m
     /\ textarea (new_model u) = textarea m
     /\ cmd u = [] /\ effects u = [])
  /\ (exists r, eventLoop (set_messages m (pre ++ [line]))
                  (map (@deltaMsg _) frags ++ [errMsg e]) = Ok r
        /\ messages (final r) = pre ++ [(line ++ concat_all frags)%string]
        /\ err (final r) = Some e).
Proof.
  split.
  - eexists. split; [apply Update_errMsg|]. simpl. repeat split.
  - assert (Hf : fragments (map (@deltaMsg OtherMsg) frags) = frags)
      by (induction frags as [|f frags IHf]; simpl; [reflexivity | rewrite IHf; reflexivity]).
    assert (Hp : forallb passive (map (@deltaMsg OtherMsg) frags) = true)
      by (clear Hf; induction frags; simpl; auto).
    destruct (eventLoop_passive (map (@deltaMsg _) frags) (set_messages m (pre ++ [line]))
                pre line Hp eq_refl) as (r1 & Hr1 & Hm1 & _ & _ & Hq1).
    eexists. split.
    { eapply eventLoop_app with (r1 := r1); eauto. simpl. reflexivity. }
    simpl. rewrite Hm1, Hf. auto.
Qed.

(** C5.  The wait for a fragment is a command, not a read inside
    [Update].  Handling a fragment returns exactly one new
    wait-for-fragment command and neither sends nor prints; in every
    reachable state exactly one such wait is under way, all waits are
    on the fragment channel, the loop is never blocked on that channel
    (it blocks only in the send of a submission), and whenever it is
    between two calls of [Update] it can take any key or resize
    message, whether a fragment has arrived or not. *)
Theorem wait_is_rearmed (env : Environ) (s : Sys) :
  reachable env s ->
  (forall m frag, messages m <> [] ->
     exists u, Update m (deltaMsg frag) = Ok u
       /\ filter is_waitForDelta (cmd u) = [waitForDelta deltaMessage]
       /\ effects u = [])
  /\ armed s = 1%nat
  /\ Forall (eq deltaMessage) (waiters s)
  /\ (forall m ch v rest u, loop s = Blocked m ch v rest u -> ch = inputMessage)
  /\ (forall m msg, loop s = Running m -> from_terminal msg = true ->
        step s (Terminal msg) (dispatch s m msg)).
Proof.
  intros Hreach.
  destruct (invariant_reachable Hreach) as (_ & _ & Hwait & Harmed & Hblocked).
  split; [|split; [|split; [|split]]]; auto.
  - intros m frag Hne.
    destruct (nonempty_snoc Hne) as (pre & line & Hm).
    destruct (Update_delta m pre line frag Hm) as (u & Hu & _ & He & ws & Hc & Hw).
    exists u. split; [exact Hu|]. split; [|exact He].
    rewrite Hc. simpl. rewrite widget_only_no_wait by exact Hw. reflexivity.
  - intros m ch v rest u Hl. destruct (Hblocked _ _ _ _ _ Hl) as (-> & _). reflexivity.
  - intros m msg Hl Hterm. constructor; assumption.
Qed.


(** C7.  The program takes the second policy.  Submitting with an empty
    input box appends one user line whose text is empty, followed by
    the response placeholder, and hands the empty text to the
    requester, which issues one request with empty content. *)
Theorem empty_submission (m : model) (k : Key) (st : ReqState) :
  Type_ k = KeyEnter ->
  textarea_Value (textarea m) = "" ->
  pc st = AwaitInput ->
  exists u, Update m (KeyMsg k) = Ok u
    /\ messages (new_model u) = messages m ++ [user_line ""; system_line]
    /\ user_line "" = Render "5" "You: "
    /\ messages (new_model u) <> messages m
    /\ effects u = [Send inputMessage ""]
    /\ req_step st (RecvInput "")
       = Some ({| pc := Creating (request_for ""); deferred := deferred st |},
               [Request (request_for "")])
    /\ Messages (request_for "") = [ {| Role := ChatMessageRoleUser; Content := "" |} ].
Proof.
  intros Hk Hv Hpc.
  destruct (Update_submit m k Hk) as (u & Hu & Hm & He & _).
  rewrite Hv in Hm, He.
  exists u. split; [exact Hu|]. split; [exact Hm|]. split.
  { unfold user_line. apply append_empty_r. }
  split.
  { rewrite Hm. intros Heq.
    apply (f_equal (@List.length string)) in Heq. rewrite length_app in Heq.
    simpl in Heq. lia. }
  split; [exact He|]. split; [|reflexivity].
  unfold req_step. rewrite Hpc. reflexivity.
Qed.

(** C8.  A resize stores the new dimensions and calls [SetWidth] of the
    text area with the new width; the transcript is not touched, and
    the viewport gets neither new content nor a scroll command: given
    that it ignores resize messages, it is exactly as before, at the
    bottom if it was there. *)
Theorem resize_frame (m : model) (w h : Z) :
  (forall v, fst (viewport_Update v (WindowSizeMsg w h)) = v) ->
  exists u, Update m (WindowSizeMsg w h) = Ok u
    /\ width (new_model u) = w /\ height (new_model u) = h
    /\ textarea (new_model u)
       = fst (textarea_Update (textarea_SetWidth (textarea m) w) (WindowSizeMsg w h))
    /\ messages (new_model u) = messages m
    /\ viewport (new_model u) = viewport m
    /\ viewport_AtBottom (viewport (new_model u)) = viewport_AtBottom (viewport m)
    /\ err (new_model u) = err m
    /\ effects u = [].
Proof.
  intros Hvp. eexists. split; [reflexivity|].
  rewrite delegate_messages, delegate_effects.
  match goal with |- context [delegate ?m' ?c ?e ?msg] =>
    destruct (delegate_fields m' c e msg) as (Hw & Hh & He & Hta & Hv) end.
  rewrite Hw, Hh, He, Hta, Hv. simpl. rewrite Hvp. repeat split.
Qed.

(** C9.  While [Update] is blocked in the send of a submission, the
    loop handles no message: along any execution, either the loop is
    still blocked in that send, on the same model, and only the
    requester has moved; or the text has been handed off, at a moment
    when the requester was back at its wait for input - and if it was
    not there when the send began, it got there by reading the clean
    end of its stream. *)
Theorem send_blocks_until_requester_receives
    (env : Environ) (s s' : Sys) (acts : list Action)
    (m : model) (ch : Chan) (v : string) (rest : list Effect) (u : Updated) :
  reachable env s ->
  loop s = Blocked m ch v rest u ->
  steps s acts s' ->
  ch = inputMessage
  /\ ((loop s' = loop s /\ Forall (fun a => ui_update a = false) acts)
      \/ (exists before after s1 st,
            acts = before ++ Submit v :: after
            /\ steps s before s1 /\ loop s1 = loop s
            /\ Forall (fun a => ui_update a = false) before
            /\ requester s1 = Some st /\ pc st = AwaitInput
            /\ forall st0, requester s = Some st0 -> pc st0 <> AwaitInput ->
                 Exists end_of_stream before)).
Proof.
  intros Hreach Hloop Hsteps.
  pose proof (invariant_reachable Hreach) as Hinv.
  split.
  - destruct Hinv as (_ & _ & _ & _ & Hblocked).
    destruct (Hblocked _ _ _ _ _ Hloop) as (-> & _). reflexivity.
  - destruct (blocked_steps Hsteps Hinv Hloop) as [(Hl & Hall & _)|Hsub].
    + left. auto.
    + right. exact Hsub.
Qed.

(** C10.  The fragment handler indexes the last line without a guard
    and the transcript starts empty - on an empty transcript the
    handler panics - yet no reachable state has [Update] panicked:
    whenever a fragment awaits the loop, or the requester holds one, the
    transcript is non-empty and the handler returns. *)
Theorem fragment_index_in_range (env : Environ) (s : Sys) (frag : string) :
  reachable env s ->
  messages (initialModel env) = []
  /\ (forall m, messages m = [] -> Update m (deltaMsg frag) = Panic "index out of range")
  /\ (forall reason, loop s <> Crashed reason)
  /\ (forall m, shown (loop s) = Some m ->
        In (deltaMsg frag) (inbox s)
        \/ (exists st stream, requester s = Some st /\ pc st = Forwarding frag stream) ->
        messages m <> [] /\ exists u, Update m (deltaMsg frag) = Ok u).
Proof.
  intros Hreach.
  destruct (invariant_reachable Hreach) as ((st & Hr & Hempty) & Hcrash & _).
  split; [reflexivity|]. split; [intros m Hm; apply Update_delta_empty; exact Hm|].
  split; [exact Hcrash|].
  intros m Hshown Hfrag.
  assert (Hne : messages m <> []).
  { intros Hm. destruct (Hempty m Hshown Hm) as [Hpc Hnone].
    destruct Hfrag as [Hin|(st' & stream & Hr' & Hpc')].
    - assert (Hin' : In (deltaMsg frag) (filter is_delta (inbox s)))
        by (apply filter_In; split; [exact Hin | reflexivity]).
      rewrite Hnone in Hin'. contradiction.
    - congruence. }
  split; [exact Hne|].
  destruct (nonempty_snoc Hne) as (pre & line & Hm).
  destruct (Update_delta m pre line frag Hm) as (u & Hu & _). eauto.
Qed.

(** * Further properties of the code *)

(** ** One call of [Update], by the kind of the message *)

Lemma Update_err_field (m : model) (msg : TeaMsg) (u : Updated) :
  Update m msg = Ok u ->
  err (new_model u) = match msg with errMsg e => Some e | _ => err m end.
Proof.
  intros H. destruct msg as [k|w h|f|e|o]; simpl in H.
  - destruct (Type_ k); injection H as <-; simpl; auto;
      match goal with |- context [delegate ?m' ?c ?e ?msg] =>
        destruct (delegate_fields m' c e msg) as (_ & _ & He & _) end;
      rewrite He; reflexivity.
  - injection H as <-.
    match goal with |- context [delegate ?m' ?c ?e ?msg] =>
      destruct (delegate_fields m' c e msg) as (_ & _ & He & _) end.
    rewrite He. reflexivity.
  - destruct (append_at (messages m) (Z.of_nat (List.length (messages m)) - 1) f);
      [|discriminate].
    injection H as <-.
    match goal with |- context [delegate ?m' ?c ?e ?msg] =>
      destruct (delegate_fields m' c e msg) as (_ & _ & He & _) end.
    rewrite He. reflexivity.
  - injection H as <-. reflexivity.
  - injection H as <-.
    match goal with |- context [delegate ?m' ?c ?e ?msg] =>
      destruct (delegate_fields m' c e msg) as (_ & _ & He & _) end.
    rewrite He. reflexivity.
Qed.

(** What [Update] does, case by case. *)
Lemma Update_cases (m : model) (msg : TeaMsg) :
  (is_quit msg = true
   /\ Update m msg = Ok {| new_model := m; cmd := [Quit];
                          effects := [Println (textarea_Value (textarea m))] |})
  \/ (is_submit msg = true
      /\ exists u, Update m msg = Ok u
         /\ messages (new_model u)
            = messages m ++ [user_line (textarea_Value (textarea m)); system_line]
         /\ effects u = [Send inputMessage (textarea_Value (textarea m))]
         /\ forallb is_widget (cmd u) = true)
  \/ (exists f, msg = deltaMsg f /\ messages m = []
      /\ Update m msg = Panic "index out of range")
  \/ (exists f pre line u, msg = deltaMsg f /\ messages m = pre ++ [line]
      /\ Update m msg = Ok u
      /\ messages (new_model u) = pre ++ [(line ++ f)%string]
      /\ effects u = []
      /\ exists ws, cmd u = waitForDelta deltaMessage :: ws /\ forallb is_widget ws = true)
  \/ (is_quit msg = false /\ is_submit msg = false /\ is_delta msg = false
      /\ exists u, Update m msg = Ok u
         /\ messages (new_model u) = messages m
         /\ effects u = []
         /\ forallb is_widget (cmd u) = true).
Proof.
  destruct (is_quit msg) eqn:Hq; [|destruct (is_submit msg) eqn:Hs; [|destruct (is_delta msg) eqn:Hd]].
  - left. split; [reflexivity|].
    destruct msg as [k| | | |]; try discriminate.
    apply Update_quit. simpl in Hq. destruct (Type_ k); auto; discriminate.
  - right; left. split; [reflexivity|].
    destruct msg as [k| | | |]; try discriminate.
    apply Update_submit. simpl in Hs. destruct (Type_ k); auto; discriminate.
  - destruct msg as [| |f| |]; try discriminate.
    destruct (messages m) as [|l0 ls] eqn:Hm.
    + right; right; left. exists f. repeat split. apply Update_delta_empty. exact Hm.
    + right; right; right; left.
      destruct (@nonempty_snoc _ (l0 :: ls)) as (pre & line & Hsnoc); [discriminate|].
      rewrite Hsnoc in Hm.
      destruct (Update_delta m pre line f Hm) as (u & Hu & Hmu & He & Hc).
      exists f, pre, line, u. rewrite <- Hsnoc. auto 10.
  - right; right; right; right. repeat split.
    apply Update_passive; auto. unfold passive. rewrite Hq, Hs. reflexivity.
Qed.

Lemma eventLoop_cons_inv (m : model) (msg : TeaMsg) (rest : list TeaMsg) (r : Run) :
  eventLoop m (msg :: rest) = Ok r ->
  exists u, Update m msg = Ok u
    /\ ((existsb is_Quit (cmd u) = true
         /\ r = {| final := new_model u; issued := cmd u;
                   performed := effects u; quit := true |})
        \/ (existsb is_Quit (cmd u) = false
            /\ exists r', eventLoop (new_model u) rest = Ok r'
               /\ r = {| final := final r'; issued := cmd u ++ issued r';
                         performed := effects u ++ performed r'; quit := quit r' |})).
Proof.
  intros H. simpl in H.
  destruct (Update m msg) as [u|] eqn:Hu; [|discriminate].
  exists u. split; [reflexivity|].
  destruct (existsb is_Quit (cmd u)) eqn:Hq.
  - left. injection H as <-. auto.
  - right. split; [reflexivity|].
    destruct (eventLoop (new_model u) rest) as [r'|]; [|discriminate].
    injection H as <-. eauto.
Qed.


Lemma extends_refl (l : list string) : extends l l.
Proof.
  destruct l as [|x l]; [left; reflexivity|].
  destruct (@nonempty_snoc _ (x :: l)) as (pre & line & E); [discriminate|].
  right. exists pre, line, ""%string, []. rewrite append_empty_r. auto.
Qed.

Lemma extends_trans (a b c : list string) :
  extends a b -> extends b c -> extends a c.
Proof.
  intros [->|(pre & line & s1 & more1 & -> & ->)] Hbc; [left; reflexivity|].
  destruct Hbc as [Habs|(pre2 & line2 & s2 & more2 & Hb & ->)].
  { destruct pre; discriminate. }
  right.
  destruct (list_eq_dec string_dec more1 []) as [->|Hne].
  - apply app_inj_tail in Hb as [<- <-].
    exists pre, line, (s1 ++ s2)%string, more2. rewrite append_assoc. auto.
  - destruct (nonempty_snoc Hne) as (more1' & x & ->).
    change (pre ++ (line ++ s1)%string :: more1' ++ [x])
      with (pre ++ ((line ++ s1)%string :: more1') ++ [x]) in Hb.
    rewrite app_assoc in Hb. apply app_inj_tail in Hb as [<- <-].
    exists pre, line, s1, (more1' ++ (x ++ s2)%string :: more2).
    split; [reflexivity|]. rewrite <- app_assoc. reflexivity.
Qed.

(** X1.  [Update] faults in one situation only: a fragment arrives
    while the transcript has no line. Every other message, and every
    fragment on a non-empty transcript, is handled. *)
Theorem update_panics_only_on_first_fragment (m : model) (msg : TeaMsg) :
  (exists reason, Update m msg = Panic reason)
  <-> (is_delta msg = true /\ messages m = []).
Proof.
  split.
  - intros [reason H].
    destruct (Update_cases m msg)
      as [(_ & E)|[(_ & u & E & _)|[(f & -> & Hm & _)
         |[(f & pre & line & u & _ & _ & E & _)|(_ & _ & _ & u & E & _)]]]];
      try congruence.
    split; [reflexivity | exact Hm].
  - intros [Hd Hm]. destruct msg; try discriminate.
    eexists. apply Update_delta_empty. exact Hm.
Qed.

(** ** Runs of the loop over arbitrary messages *)



Lemma is_quit_not_delta (msg : TeaMsg) : is_quit msg = true -> is_delta msg = false.
Proof. destruct msg; simpl; auto; discriminate. Qed.

Lemma is_submit_not_delta (msg : TeaMsg) : is_submit msg = true -> is_delta msg = false.
Proof. destruct msg; simpl; auto; discriminate. Qed.

Lemma is_quit_not_submit (msg : TeaMsg) : is_quit msg = true -> is_submit msg = false.
Proof.
  destruct msg as [k| | | |]; simpl; auto. destruct (Type_ k); auto; discriminate.
Qed.

(** What every returning call of [Update] satisfies. *)
Lemma Update_facts (m : model) (msg : TeaMsg) (u : Updated) :
  Update m msg = Ok u ->
  List.length (messages (new_model u))
  = (List.length (messages m) + 2 * List.length (submitted (effects u)))%nat
  /\ extends (messages m) (messages (new_model u))
  /\ (messages m <> [] -> messages (new_model u) <> [])
  /\ existsb is_Quit (cmd u) = is_quit msg
  /\ printed (effects u)
     = (if is_quit msg then [textarea_Value (textarea m)] else [])
  /\ (is_quit msg = true -> new_model u = m)
  /\ filter is_createChatCompletion (cmd u) = []
  /\ List.length (filter is_waitForDelta (cmd u)) = (if is_delta msg then 1 else 0)%nat.
Proof.
  intros H.
  assert (Hwq : forall l : Cmd, forallb is_widget l = true ->
                  filter is_createChatCompletion l = [])
    by (induction l as [|c l IH]; simpl; auto; destruct c; simpl; try discriminate; auto).
  destruct (Update_cases m msg)
    as [(Hq & E)|[(Hs & u' & E & Hm & He & Hw)|[(f & Hmsg & Hm & E)
       |[(f & pre & line & u' & Hmsg & Hm & E & Hm' & He & ws & Hc & Hw)
        |(Hq & Hs & Hd & u' & E & Hm & He & Hw)]]]];
    rewrite E in H; try discriminate; injection H as <-.
  - rewrite Hq, (is_quit_not_delta msg Hq). simpl.
    repeat split; auto using extends_refl; lia.
  - assert (Hq : is_quit msg = false)
      by (destruct (is_quit msg) eqn:Hq; auto;
          rewrite (is_quit_not_submit msg Hq) in Hs; discriminate).
    rewrite Hq, (is_submit_not_delta msg Hs), Hm, He, length_app. simpl.
    rewrite (widget_only_no_Quit _ Hw), (widget_only_no_wait _ Hw), (Hwq _ Hw). simpl.
    repeat split; try lia; try discriminate.
    + destruct (messages m) as [|x l] eqn:El; [left; reflexivity|].
      destruct (@nonempty_snoc _ (x :: l)) as (pre & line & E'); [discriminate|].
      right. exists pre, line, ""%string,
        [user_line (textarea_Value (textarea m)); system_line].
      rewrite append_empty_r, E', <- app_assoc. auto.
    + intros _ Habs. apply app_eq_nil in Habs as [_ Habs]. discriminate.
  - rewrite Hmsg. simpl. rewrite Hm', Hm, He, Hc, !length_app. simpl.
    rewrite (widget_only_no_Quit _ Hw), (widget_only_no_wait _ Hw), (Hwq _ Hw). simpl.
    repeat split; try lia; try discriminate.
    + right. exists pre, line, f, []. auto.
    + intros _ Habs. apply app_eq_nil in Habs as [_ Habs]. discriminate.
  - rewrite Hq, Hd, Hm, He.
    rewrite (widget_only_no_Quit _ Hw), (widget_only_no_wait _ Hw), (Hwq _ Hw). simpl.
    repeat split; auto using extends_refl; try lia; try discriminate.
Qed.


(** X3.  However the messages are ordered, a run that returns leaves a
    transcript with exactly two lines more per text it sent to the
    requester. *)
Theorem two_lines_per_submission (msgs : list TeaMsg) (m : model) (r : Run) :
  eventLoop m msgs = Ok r ->
  List.length (messages (final r))
  = (List.length (messages m) + 2 * List.length (submitted (performed r)))%nat.
Proof.
  revert m r. induction msgs as [|msg rest IH]; intros m r H.
  - injection H as <-. simpl. lia.
  - apply eventLoop_cons_inv in H
      as (u & Hu & [(Hq & ->)|(Hq & r' & Hr & ->)]);
      destruct (Update_facts m msg Hu) as (Hlen & _); simpl.
    + exact Hlen.
    + rewrite (IH _ _ Hr), Hlen, submitted_app, length_app. lia.
Qed.

(** X4.  The transcript is append-only but for its last line: over any
    run, every line that was not the last keeps its place and content,
    and the line that was last has at most been extended at its end. *)
Theorem transcript_is_append_only (msgs : list TeaMsg) (m : model) (r : Run) :
  eventLoop m msgs = Ok r ->
  extends (messages m) (messages (final r)).
Proof.
  revert m r. induction msgs as [|msg rest IH]; intros m r H.
  - injection H as <-. apply extends_refl.
  - apply eventLoop_cons_inv in H
      as (u & Hu & [(Hq & ->)|(Hq & r' & Hr & ->)]);
      destruct (Update_facts m msg Hu) as (_ & Hext & _); simpl.
    + exact Hext.
    + eapply extends_trans; [exact Hext | apply (IH _ _ Hr)].
Qed.





(** X7.  The recorded error is never cleared: a run that starts with an
    error recorded ends with one, and a run that does not quit ends
    with the last error among its messages, or with the one it started
    with when there is none. *)
Theorem error_is_kept (msgs : list TeaMsg) (m : model) (r : Run) :
  eventLoop m msgs = Ok r ->
  (err m <> None -> err (final r) <> None)
  /\ (quit r = false -> err (final r) = last_error msgs (err m)).
Proof.
  revert m r. induction msgs as [|msg rest IH]; intros m r H.
  - injection H as <-. simpl. auto.
  - apply eventLoop_cons_inv in H
      as (u & Hu & [(Hq & ->)|(Hq & r' & Hr & ->)]);
      pose proof (Update_err_field m msg Hu) as Herr; simpl.
    + split; [|discriminate].
      destruct msg; rewrite Herr; auto; discriminate.
    + destruct (IH _ _ Hr) as (IH1 & IH2). split.
      * intros Hm. apply IH1. rewrite Herr. destruct msg; auto; discriminate.
      * intros Hquit. rewrite (IH2 Hquit), Herr. destruct msg; reflexivity.
Qed.

Lemma last_cons_default (A : Type) (l : list A) : forall (x d d' : A),
  last (x :: l) d = last (x :: l) d'.
Proof.
  induction l as [|y l IH]; intros x d d'; [reflexivity|].
  change (last (y :: l) d = last (y :: l) d'). apply IH.
Qed.

(** X8.  An error never reaches the screen: after any sequence of error
    events the view is what it was, the transcript too, and only the
    error field of the model has changed. *)
Theorem errors_are_not_rendered (es : list error) (m : model) :
  exists r, eventLoop m (map (@errMsg OtherMsg) es) = Ok r
    /\ View (final r) = View m
    /\ messages (final r) = messages m
    /\ err (final r) = last (map Some es) (err m)
    /\ performed r = [] /\ issued r = [].
Proof.
  revert m. induction es as [|e es IH]; intros m.
  - eexists. split; [reflexivity|]. simpl. auto.
  - destruct (IH (set_err m (Some e))) as (r & Hr & Hv & Hm & He & Hp & Hi).
    exists {| final := final r; issued := [] ++ issued r;
              performed := [] ++ performed r; quit := quit r |}.
    split.
    { apply (@eventLoop_cons_ok m (errMsg e) (map (@errMsg OtherMsg) es)
               {| new_model := set_err m (Some e); cmd := []; effects := [] |} r);
        [apply Update_errMsg | reflexivity | exact Hr]. }
    simpl. rewrite Hv, Hm, He, Hp, Hi. repeat split.
    destruct es as [|e0 es]; [reflexivity|]. apply last_cons_default.
Qed.

(** ** The widgets after a call of [Update] *)

(** The viewport [Update] returns: untouched by a quit key or an
    error, handed the message alone by the passive messages, and given
    the joined transcript and scrolled to the bottom before it sees a
    submission or a fragment. *)
Lemma Update_viewport (m : model) (msg : TeaMsg) (u : Updated) :
  Update m msg = Ok u ->
  (is_submit msg = false /\ is_delta msg = false
   /\ messages (new_model u) = messages m
   /\ (viewport (new_model u) = viewport m
       \/ viewport (new_model u) = fst (viewport_Update (viewport m) msg)))
  \/ ((is_submit msg = true \/ is_delta msg = true)
      /\ messages (new_model u) <> []
      /\ viewport (new_model u)
         = fst (viewport_Update
                  (viewport_GotoBottom
                     (viewport_SetContent (viewport m)
                        (strings_Join (messages (new_model u)) newline))) msg)).
Proof.
  intros H.
  destruct msg as [k|w h|f|e|o]; simpl in H.
  - destruct (Type_ k) eqn:Hk; injection H as <-; simpl; rewrite Hk.
    + left. auto.
    + left. auto.
    + right. split; [auto|].
      rewrite delegate_messages.
      match goal with |- context [delegate ?m' ?c ?e ?msg] =>
        destruct (delegate_fields m' c e msg) as (_ & _ & _ & _ & Hv) end.
      rewrite Hv. simpl. split; [|reflexivity].
      intros Habs. apply app_eq_nil in Habs as [_ Habs]. discriminate.
    + left. rewrite delegate_messages.
      match goal with |- context [delegate ?m' ?c ?e ?msg] =>
        destruct (delegate_fields m' c e msg) as (_ & _ & _ & _ & Hv) end.
      rewrite Hv. auto.
    + left. rewrite delegate_messages.
      match goal with |- context [delegate ?m' ?c ?e ?msg] =>
        destruct (delegate_fields m' c e msg) as (_ & _ & _ & _ & Hv) end.
      rewrite Hv. auto.
  - injection H as <-. left. rewrite delegate_messages.
    match goal with |- context [delegate ?m' ?c ?e ?msg] =>
      destruct (delegate_fields m' c e msg) as (_ & _ & _ & _ & Hv) end.
    rewrite Hv. auto.
  - destruct (append_at (messages m) (Z.of_nat (List.length (messages m)) - 1) f)
      as [l|] eqn:Hat; [|discriminate].
    injection H as <-. right. split; [auto|].
    rewrite delegate_messages.
    match goal with |- context [delegate ?m' ?c ?e ?msg] =>
      destruct (delegate_fields m' c e msg) as (_ & _ & _ & _ & Hv) end.
    rewrite Hv. simpl. split; [|reflexivity].
    destruct (messages m) as [|x xs] eqn:Hm; [discriminate|].
    destruct (@nonempty_snoc _ (x :: xs)) as (pre & line & E); [discriminate|].
    rewrite E, append_at_last in Hat. injection Hat as <-.
    intros Habs. apply app_eq_nil in Habs as [_ Habs]. discriminate.
  - injection H as <-. left. auto.
  - injection H as <-. left. rewrite delegate_messages.
    match goal with |- context [delegate ?m' ?c ?e ?msg] =>
      destruct (delegate_fields m' c e msg) as (_ & _ & _ & _ & Hv) end.
    rewrite Hv. auto.
Qed.

(** The text area a submission leaves: reset, then shown the key. *)
Lemma Update_submit_textarea (m : model) (k : Key) (u : Updated) :
  Type_ k = KeyEnter ->
  Update m (KeyMsg k) = Ok u ->
  textarea (new_model u)
  = fst (textarea_Update (textarea_Reset (textarea m)) (KeyMsg k)).
Proof.
  intros Hk H. unfold Update in H. rewrite Hk in H. injection H as <-.
  match goal with |- context [delegate ?m' ?c ?e ?msg] =>
    destruct (delegate_fields m' c e msg) as (_ & _ & _ & Ht & _) end.
  rewrite Ht. reflexivity.
Qed.

Lemma Update_synced (content : viewport_Model -> string)
    (m : model) (msg : TeaMsg) (u : Updated) :
  (forall v s, content (viewport_SetContent v s) = s) ->
  (forall v, content (viewport_GotoBottom v) = content v) ->
  (forall v msg, content (fst (viewport_Update v msg)) = content v) ->
  synced content m -> Update m msg = Ok u -> synced content (new_model u).
Proof.
  intros Hset Hbot Hupd Hs Hu. unfold synced in *.
  destruct (Update_viewport m msg Hu) as [(_ & _ & Hm & [Hv|Hv])|(_ & Hne & Hv)].
  - rewrite Hm, Hv. exact Hs.
  - rewrite Hm, Hv, Hupd. exact Hs.
  - rewrite Hv, Hupd, Hbot, Hset.
    destruct (messages (new_model u)); [contradiction | reflexivity].
Qed.

(** X9.  The viewport always shows the transcript.  For a viewport
    that displays the content it was last given, whatever it is sent
    or scrolled to, the initial model shows the welcome text and every
    run keeps the display in step with the transcript: the welcome
    text until the first line exists, from then on all lines joined
    by newlines. *)
Theorem viewport_shows_transcript
    (content : viewport_Model -> string) (env : Environ)
    (msgs : list TeaMsg) (m : model) (r : Run) :
  (forall v s, content (viewport_SetContent v s) = s) ->
  (forall v, content (viewport_GotoBottom v) = content v) ->
  (forall v msg, content (fst (viewport_Update v msg)) = content v) ->
  synced content (initialModel env)
  /\ (synced content m -> eventLoop m msgs = Ok r -> synced content (final r)).
Proof.
  intros Hset Hbot Hupd. split.
  - unfold synced. simpl. apply Hset.
  - revert m r. induction msgs as [|msg rest IH]; intros m r Hs H.
    + injection H as <-. exact Hs.
    + apply eventLoop_cons_inv in H
        as (u & Hu & [(Hq & ->)|(Hq & r' & Hr & ->)]);
        pose proof (@Update_synced content m msg u Hset Hbot Hupd Hs Hu) as Hs'; simpl.
      * exact Hs'.
      * apply (IH _ _ Hs' Hr).
Qed.

(** X10.  A submission clears the pending input.  For a text area
    whose [Reset] empties it and which, with the newline binding
    disabled as line 84 sets it, does not insert on Enter, the model a
    submission returns has an empty input, so submitting again at once
    sends the empty text. *)
Theorem submission_clears_input
    (single_line : textarea_Model -> Prop) (m : model) (k k' : Key) (u : Updated) :
  (forall t, textarea_Value (textarea_Reset t) = "") ->
  (forall t, single_line t -> single_line (textarea_Reset t)) ->
  (forall t key, single_line t -> Type_ key = KeyEnter ->
     textarea_Value (fst (textarea_Update t (KeyMsg key))) = textarea_Value t) ->
  single_line (textarea m) ->
  Type_ k = KeyEnter -> Type_ k' = KeyEnter ->
  Update m (KeyMsg k) = Ok u ->
  textarea_Value (textarea (new_model u)) = ""
  /\ exists u', Update (new_model u) (KeyMsg k') = Ok u'
       /\ effects u' = [Send inputMessage ""]
       /\ messages (new_model u')
          = messages m ++ [user_line (textarea_Value (textarea m)); system_line;
                           user_line ""; system_line].
Proof.
  intros Hreset Hkeep Henter Hsl Hk Hk' Hu.
  assert (Hv : textarea_Value (textarea (new_model u)) = "").
  { rewrite (Update_submit_textarea m k Hk Hu), Henter; auto. }
  split; [exact Hv|].
  destruct (Update_submit m k Hk) as (u0 & Hu0 & Hm0 & _).
  rewrite Hu in Hu0. injection Hu0 as <-.
  destruct (Update_submit (new_model u) k' Hk') as (u' & Hu' & Hm' & He' & _).
  exists u'. split; [exact Hu'|]. rewrite He', Hm', Hm0, Hv, <- app_assoc. auto.
Qed.

(** X11.  The viewport follows the bottom.  For a viewport that is at
    the bottom after [GotoBottom] and does not scroll on Enter or on a
    message that is no key, the model returned for a submission or a
    fragment has its viewport at the bottom. *)
Theorem viewport_follows_bottom (m : model) (msg : TeaMsg) (u : Updated) :
  (forall v, viewport_AtBottom (viewport_GotoBottom v) = true) ->
  (forall v msg, is_submit msg = true \/ is_delta msg = true ->
     fst (viewport_Update v msg) = v) ->
  is_submit msg = true \/ is_delta msg = true ->
  Update m msg = Ok u ->
  viewport_AtBottom (viewport (new_model u)) = true.
Proof.
  intros Hbot Hupd Hkind Hu.
  destruct (Update_viewport m msg Hu) as [(Hs & Hd & _)|(_ & _ & Hv)].
  - destruct Hkind; congruence.
  - rewrite Hv, Hupd by exact Hkind. apply Hbot.
Qed.

(** ** Runs of the requester *)

(** What a step of the requester is, case by case. *)
Lemma req_step_cases (st st' : ReqState) (ev : ReqEvent) (o : list ReqOut) :
  req_step st ev = Some (st', o) ->
  (exists text, pc st = AwaitInput /\ ev = RecvInput text
     /\ st' = {| pc := Creating (request_for text); deferred := deferred st |}
     /\ o = [Request (request_for text)])
  \/ (exists req s, pc st = Creating req /\ ev = Created s None
        /\ st' = {| pc := Receiving s; deferred := s :: deferred st |} /\ o = [])
  \/ (exists s r e, pc st = Receiving s /\ ev = Recv r (Some e)
        /\ errors_Is (Some e) (Some io_EOF) = true
        /\ st' = {| pc := AwaitInput; deferred := deferred st |} /\ o = [])
  \/ (exists s r choice others, pc st = Receiving s /\ ev = Recv r None
        /\ Choices r = choice :: others
        /\ st' = {| pc := Forwarding (Delta_Content choice) s; deferred := deferred st |}
        /\ o = [])
  \/ (exists frag s, pc st = Forwarding frag s /\ ev = Sent
        /\ st' = {| pc := Receiving s; deferred := deferred st |}
        /\ o = [Forwarded frag])
  \/ (exists e, fatal st ev = Some e
        /\ st' = {| pc := Returned e; deferred := [] |}
        /\ o = map Closed (deferred st) ++ [Emitted e])
  \/ (exists s r, pc st = Receiving s /\ ev = Recv r None /\ Choices r = []
        /\ st' = {| pc := Panicked; deferred := [] |}
        /\ o = map Closed (deferred st)).
Proof.
  unfold req_step, req_return, fatal. intros H.
  destruct (pc st) eqn:Hpc, ev as [text|s oe|r oe|]; try discriminate.
  - injection H as <- <-. left. exists text. auto.
  - destruct oe as [e|]; injection H as <- <-.
    + do 5 right. left. exists e. auto.
    + right; left. exists req, s. auto.
  - destruct oe as [e|].
    + destruct (errors_Is (Some e) (Some io_EOF)) eqn:Heof; injection H as <- <-.
      * right; right; left. exists stream, r, e. auto.
      * do 5 right. left. exists e. auto.
    + simpl in H. destruct (Choices r) as [|choice others] eqn:Hc; injection H as <- <-.
      * do 6 right. exists stream, r. auto.
      * do 3 right. left. exists stream, r, choice, others. auto.
  - injection H as <- <-. do 4 right. left. exists frag, stream. auto.
Qed.

Lemma req_run_cons_inv (st st' : ReqState) (ev : ReqEvent) (rest : list ReqEvent)
    (outs : list ReqOut) :
  req_run st (ev :: rest) = Some (st', outs) ->
  exists st1 o1 o2, req_step st ev = Some (st1, o1)
    /\ req_run st1 rest = Some (st', o2) /\ outs = o1 ++ o2.
Proof.
  simpl. intros H.
  destruct (req_step st ev) as [[st1 o1]|] eqn:Hstep; [|discriminate].
  destruct (req_run st1 rest) as [[st2 o2]|] eqn:Hrun; [|discriminate].
  injection H as <- <-. exists st1, o1, o2. auto.
Qed.

(** A requester that has returned or panicked takes no event. *)
Lemma halted_run (st st' : ReqState) (evs : list ReqEvent) (outs : list ReqOut) :
  running st = false -> req_run st evs = Some (st', outs) ->
  evs = [] /\ st' = st /\ outs = [].
Proof.
  intros Hrun H. destruct evs as [|ev rest].
  - injection H as <- <-. auto.
  - exfalso. simpl in H. unfold req_step, running in *.
    destruct (pc st); try discriminate.
Qed.

Lemma requests_of_app (a b : list ReqOut) :
  requests_of (a ++ b) = requests_of a ++ requests_of b.
Proof. induction a as [|o a IH]; simpl; auto. destruct o; simpl; congruence. Qed.

Lemma forwarded_of_app (a b : list ReqOut) :
  forwarded_of (a ++ b) = forwarded_of a ++ forwarded_of b.
Proof. induction a as [|o a IH]; simpl; auto. destruct o; simpl; congruence. Qed.

Lemma closed_of_app (a b : list ReqOut) :
  closed_of (a ++ b) = closed_of a ++ closed_of b.
Proof. induction a as [|o a IH]; simpl; auto. destruct o; simpl; congruence. Qed.

Lemma closed_of_Closed (l : list Stream) : closed_of (map Closed l) = l.
Proof. induction l; simpl; congruence. Qed.

Lemma forwarded_of_Closed (l : list Stream) : forwarded_of (map Closed l) = [].
Proof. induction l; simpl; auto. Qed.

Lemma requests_of_Closed (l : list Stream) : requests_of (map Closed l) = [].
Proof. induction l; simpl; auto. Qed.

Lemma fatal_event (st : ReqState) (ev : ReqEvent) (e : error) :
  fatal st ev = Some e ->
  running st = true /\ held st = []
  /\ inputs_of [ev] = [] /\ opened_of [ev] = [] /\ chunks_of [ev] = [].
Proof.
  unfold fatal, running, held. intros H.
  destruct (pc st), ev as [text|s oe|r oe|]; try discriminate;
    destruct oe; try discriminate; simpl; auto.
Qed.

(** X12.  Requests mirror submissions: over any run of the requester,
    the requests issued are, one for one and in order, the requests
    for the texts received on the input hand-off, each with that text
    as its only message. *)
Theorem requests_mirror_inputs (evs : list ReqEvent) (st st' : ReqState)
    (outs : list ReqOut) :
  req_run st evs = Some (st', outs) ->
  requests_of outs = map request_for (inputs_of evs).
Proof.
  revert st outs. induction evs as [|ev rest IH]; intros st outs H.
  - injection H as <- <-. reflexivity.
  - apply req_run_cons_inv in H as (st1 & o1 & o2 & Hstep & Hrun & ->).
    rewrite requests_of_app, (IH _ _ Hrun).
    destruct (req_step_cases st ev Hstep)
      as [(t & _ & -> & _ & ->)|[(q & s & _ & -> & _ & ->)
         |[(s & r & e & _ & -> & _ & _ & ->)|[(s & r & c & cs & _ & -> & _ & _ & ->)
         |[(f & s & _ & -> & _ & ->)|[(e & Hf & _ & ->)|(s & r & _ & -> & _ & _ & ->)]]]]]];
      simpl; rewrite ?requests_of_Closed; auto.
    destruct (fatal_event st ev Hf) as (_ & _ & Hi & _).
    rewrite requests_of_app, requests_of_Closed. simpl.
    change (inputs_of (ev :: rest)) with (inputs_of ([ev] ++ rest)).
    destruct ev; simpl in *; try discriminate; reflexivity.
Qed.

(** X13.  No fragment is lost, doubled or reordered by the requester:
    over any run, the fragments handed on, followed by the one whose
    send is pending if there is one, are exactly the first-choice texts
    of the chunks read without error, in the order read.  A chunk that
    comes with an error is not handed on. *)
Theorem fragments_forwarded_in_order (evs : list ReqEvent) (st st' : ReqState)
    (outs : list ReqOut) :
  req_run st evs = Some (st', outs) ->
  held st ++ chunks_of evs = forwarded_of outs ++ held st'.
Proof.
  revert st outs. induction evs as [|ev rest IH]; intros st outs H.
  - injection H as <- <-. simpl. rewrite app_nil_r. reflexivity.
  - apply req_run_cons_inv in H as (st1 & o1 & o2 & Hstep & Hrun & ->).
    rewrite forwarded_of_app, <- app_assoc, <- (IH _ _ Hrun).
    destruct (req_step_cases st ev Hstep)
      as [(t & Hpc & -> & -> & ->)|[(q & s & Hpc & -> & -> & ->)
         |[(s & r & e & Hpc & -> & _ & -> & ->)
         |[(s & r & c & cs & Hpc & -> & Hc & -> & ->)
         |[(f & s & Hpc & -> & -> & ->)|[(e & Hf & -> & ->)
          |(s & r & Hpc & -> & Hc & -> & ->)]]]]]];
      unfold held; simpl; rewrite ?Hpc, ?Hc; simpl; auto.
    + destruct (fatal_event st ev Hf) as (_ & Hh & _ & _ & Hch).
      unfold held in Hh. rewrite Hh, forwarded_of_app, forwarded_of_Closed. simpl.
      destruct ev as [|? [?|]|r [?|]|]; simpl in *; try discriminate; auto.
      destruct (Choices r); [reflexivity | discriminate].
    + rewrite forwarded_of_Closed. reflexivity.
Qed.

Lemma streams_of_run (evs : list ReqEvent) : forall (st st' : ReqState) (outs : list ReqOut),
  req_run st evs = Some (st', outs) ->
  running st = true ->
  if running st'
  then closed_of outs = [] /\ deferred st' = rev (opened_of evs) ++ deferred st
  else closed_of outs = rev (opened_of evs) ++ deferred st /\ deferred st' = [].
Proof.
  induction evs as [|ev rest IH]; intros st st' outs H Hrun.
  - injection H as <- <-. rewrite Hrun. auto.
  - apply req_run_cons_inv in H as (st1 & o1 & o2 & Hstep & Hrest & ->).
    rewrite closed_of_app.
    assert (Hhalt : forall st0 o, running st0 = false -> st1 = st0 -> o1 = o ->
              closed_of o = deferred st -> opened_of [ev] = [] -> deferred st0 = [] ->
              if running st'
              then closed_of o ++ closed_of o2 = []
                   /\ deferred st' = rev (opened_of (ev :: rest)) ++ deferred st
              else closed_of o ++ closed_of o2 = rev (opened_of (ev :: rest)) ++ deferred st
                   /\ deferred st' = []).
    { intros st0 o Hr0 -> -> Hcl Hop Hd.
      destruct (halted_run st0 rest Hr0 Hrest) as (-> & -> & ->).
      rewrite Hr0, Hcl, Hd, app_nil_r.
      replace (opened_of [ev]) with (opened_of (ev :: [])) in Hop by reflexivity.
      rewrite Hop. auto. }
    destruct (req_step_cases st ev Hstep)
      as [(t & Hpc & -> & -> & ->)|[(q & s & Hpc & -> & -> & ->)
         |[(s & r & e & Hpc & -> & _ & -> & ->)
         |[(s & r & c & cs & Hpc & -> & Hc & -> & ->)
         |[(f & s & Hpc & -> & -> & ->)|[(e & Hf & -> & ->)
          |(s & r & Hpc & -> & Hc & -> & ->)]]]]]].
    + apply (IH _ _ _ Hrest). reflexivity.
    + specialize (IH _ _ _ Hrest eq_refl). simpl in *.
      destruct (running st'); destruct IH as [IH1 IH2]; rewrite IH1, ?IH2;
        rewrite <- ?app_assoc; auto.
    + apply (IH _ _ _ Hrest). reflexivity.
    + apply (IH _ _ _ Hrest). reflexivity.
    + apply (IH _ _ _ Hrest). reflexivity.
    + destruct (fatal_event st ev Hf) as (_ & _ & _ & Hop & _).
      apply (Hhalt {| pc := Returned e; deferred := [] |}
                   (map Closed (deferred st) ++ [Emitted e])); auto.
      rewrite closed_of_app, closed_of_Closed. simpl. apply app_nil_r.
    + apply (Hhalt {| pc := Panicked; deferred := [] |} (map Closed (deferred st))); auto.
      apply closed_of_Closed.
Qed.

(** X14.  Streams are closed only when the requester ends.  While it
    runs, no stream has been closed and all the streams it opened are
    held for closing, the latest first; when it returns or panics,
    every stream it opened is closed exactly once, the latest first. *)
Theorem streams_closed_at_return (evs : list ReqEvent) (st : ReqState) (outs : list ReqOut) :
  req_run req_init evs = Some (st, outs) ->
  if running st
  then closed_of outs = [] /\ deferred st = rev (opened_of evs)
  else closed_of outs = rev (opened_of evs) /\ deferred st = [].
Proof.
  intros H. pose proof (streams_of_run evs req_init H eq_refl) as Hs.
  simpl in Hs. rewrite app_nil_r in Hs. exact Hs.
Qed.

(** X15.  A chunk without choices is fatal in its own way: read without
    error in any run, it makes the requester panic at line 199.  The
    streams opened are closed, no error event is emitted, nothing more
    is handed on, and no event is taken any more. *)
Theorem empty_chunk_panics (evs : list ReqEvent) (st : ReqState) (outs : list ReqOut)
    (stream : Stream) (r : ChatCompletionStreamResponse) :
  req_run req_init evs = Some (st, outs) ->
  pc st = Receiving stream ->
  Choices r = [] ->
  exists st' outs',
    req_run req_init (evs ++ [Recv r None]) = Some (st', outs')
    /\ pc st' = Panicked
    /\ outs' = outs ++ map Closed (deferred st)
    /\ filter is_Emitted outs' = []
    /\ forwarded_of outs' = forwarded_of outs
    /\ (forall next, req_step st' next = None).
Proof.
  intros Hrun Hpc Hc.
  assert (Hstep : req_step st (Recv r None)
                  = Some ({| pc := Panicked; deferred := [] |}, map Closed (deferred st))).
  { unfold req_step. rewrite Hpc. simpl. rewrite Hc. reflexivity. }
  assert (Hquiet : filter is_Emitted outs = []).
  { destruct (req_run_emits evs req_init Hrun) as [_ [Hnone|(e' & Hpc' & _)]]; auto.
    congruence. }
  exists {| pc := Panicked; deferred := [] |}, (outs ++ map Closed (deferred st)).
  split; [|split; [|split; [|split; [|split]]]]; auto.
  - rewrite req_run_app, Hrun. simpl. rewrite Hstep. simpl. rewrite app_nil_r. reflexivity.
  - rewrite filter_app, Hquiet, filter_Emitted_Closed. reflexivity.
  - rewrite forwarded_of_app, forwarded_of_Closed. apply app_nil_r.
Qed.

(** ** Executions of the whole system *)

Lemma spawn_inbox (cmds : Cmd) : forall (s : Sys),
  inbox (fold_left spawn cmds s) = inbox s.
Proof.
  induction cmds as [|c cmds IH]; intros s; simpl; auto.
  rewrite IH. destruct c; simpl; auto. destruct (loop s); reflexivity.
Qed.

Lemma perform_inbox (effs : list Effect) : forall (s : Sys) (m : model) (u : Updated),
  inbox (perform s m effs u) = inbox s.
Proof.
  induction effs as [|e effs IH]; intros s m u; simpl.
  - unfold complete. rewrite spawn_inbox. reflexivity.
  - destruct e; simpl; auto. rewrite IH. reflexivity.
Qed.

Lemma dispatch_inbox (s : Sys) (m : model) (msg : TeaMsg) :
  inbox (dispatch s m msg) = inbox s.
Proof.
  unfold dispatch. destruct (Update m msg); [apply perform_inbox | reflexivity].
Qed.

Lemma fragments_app (a b : list TeaMsg) :
  fragments (a ++ b) = fragments a ++ fragments b.
Proof. induction a as [|x a IH]; simpl; auto. destruct x; simpl; congruence. Qed.

Lemma fragments_filter_length (l : list TeaMsg) :
  List.length (fragments l) = List.length (filter is_delta l).
Proof. induction l as [|x l IH]; simpl; auto. destruct x; simpl; congruence. Qed.

Lemma emit_inbox_fragments (outs : list ReqOut) : forall (s : Sys),
  fragments (inbox (emit s outs)) = fragments (inbox s).
Proof.
  induction outs as [|o outs IH]; intros s; simpl; auto.
  destruct o; auto. rewrite IH. simpl. rewrite fragments_app. simpl. apply app_nil_r.
Qed.

(** With the loop blocked in a send that no waiting command can take,
    and the requester either returned or itself blocked in a send with
    no wait armed, no step is possible. *)
Lemma stuck (s : Sys) (m : model) (ch : Chan) (v : string) (rest : list Effect)
    (u : Updated) (st : ReqState) :
  loop s = Blocked m ch v rest u ->
  ~ In ch (waiters s) ->
  requester s = Some st ->
  (exists e, pc st = Returned e) \/ (held st <> [] /\ waiters s = []) ->
  forall a s', ~ step s a s'.
Proof.
  intros Hloop Hnw Hreq Hst a s' Hstep.
  assert (Hst' : running st = false \/ (held st <> [] /\ waiters s = [])).
  { destruct Hst as [[e He]|Hst]; [left; unfold running; rewrite He; reflexivity|].
    right. exact Hst. }
  clear Hst. rename Hst' into Hst.
  destruct Hstep as [s m0 msg Hl Hterm | s m0 pre msg post Hl Hin
                    | s st0 ev st' outs Hr Hsvc Hstep
                    | s m0 v0 rest0 u0 st0 st' outs Hl Hr Hstep
                    | s st0 frag stream pre post st' outs Hr Hpc Hw Hstep
                    | s m0 ch0 v0 rest0 u0 pre post Hl Hw];
    try congruence.
  - rewrite Hreq in Hr. injection Hr as <-.
    unfold req_step, running, held in *.
    destruct (pc st), ev; try discriminate; destruct Hst as [?|[? _]]; congruence.
  - rewrite Hreq in Hr. injection Hr as <-.
    apply takes_input_when_awaiting in Hstep.
    unfold running, held in Hst. rewrite Hstep in Hst.
    destruct Hst as [?|[? _]]; congruence.
  - rewrite Hreq in Hr. injection Hr as <-.
    unfold running in Hst. rewrite Hpc in Hst.
    destruct Hst as [?|[_ Hw0]]; [discriminate|].
    rewrite Hw0 in Hw. destruct pre; discriminate.
  - rewrite Hl in Hloop. injection Hloop as <- <- <- <- <-.
    apply Hnw. rewrite Hw. apply in_or_app. right. left. reflexivity.
Qed.

(** X16.  A second pending fragment deadlocks the program.  When the
    loop is blocked in the send of a submission while the requester is
    itself blocked handing on a fragment and no wait is armed, no step
    of the system is possible: the loop waits for the requester, the
    requester for a wait only the loop can arm. *)
Theorem second_fragment_deadlocks
    (s : Sys) (m : model) (v : string) (rest : list Effect) (u : Updated)
    (st : ReqState) (frag : string) (stream : Stream) :
  loop s = Blocked m inputMessage v rest u ->
  requester s = Some st ->
  pc st = Forwarding frag stream ->
  waiters s = [] ->
  forall a s', ~ step s a s'.
Proof.
  intros Hloop Hreq Hpc Hw.
  apply (@stuck s m inputMessage v rest u st); auto.
  - rewrite Hw. intros [].
  - right. unfold held. rewrite Hpc. split; [discriminate | exact Hw].
Qed.

(** X17.  After the requester has returned, the next submission
    freezes the program.  In a reachable state whose requester has
    returned an error (lines 185, 196), a submit key is taken and
    leaves the loop blocked in its send, two lines appended to a
    transcript it will never show; from there no step is possible: no
    key, not even quit, is handled again. *)
Theorem submission_after_failure_freezes
    (env : Environ) (s : Sys) (m : model) (msg : TeaMsg) (st : ReqState) (e : error) :
  reachable env s ->
  loop s = Running m ->
  requester s = Some st ->
  pc st = Returned e ->
  is_submit msg = true ->
  step s (Terminal msg) (dispatch s m msg)
  /\ (exists u, dispatch s m msg
                = set_loop s (Blocked m inputMessage (textarea_Value (textarea m)) [] u)
        /\ messages (new_model u)
           = messages m ++ [user_line (textarea_Value (textarea m)); system_line])
  /\ forall a s', ~ step (dispatch s m msg) a s'.
Proof.
  intros Hreach Hloop Hreq Hpc Hs.
  destruct (invariant_reachable Hreach) as (_ & _ & Hwait & _).
  destruct msg as [k| | | |]; try discriminate.
  assert (Hk : Type_ k = KeyEnter) by (simpl in Hs; destruct (Type_ k); auto; discriminate).
  destruct (Update_submit m k Hk) as (u & Hu & Hm & He & _).
  assert (Hd : dispatch s m (KeyMsg k)
               = set_loop s (Blocked m inputMessage (textarea_Value (textarea m)) [] u)).
  { unfold dispatch. rewrite Hu, He. reflexivity. }
  split; [apply step_terminal; [exact Hloop | reflexivity]|].
  split; [exists u; split; [exact Hd | exact Hm]|].
  rewrite Hd.
  apply (@stuck _ m inputMessage (textarea_Value (textarea m)) [] u st); eauto.
  simpl. intros Hin. rewrite Forall_forall in Hwait.
  specialize (Hwait _ Hin). discriminate.
Qed.




(** X19.  A submission handed to a waiting requester starts one
    request for the pending text.  From a running loop and a requester
    at its wait, handling a submit key and the hand-off that follows
    leave the loop running on the model with the two new lines and the
    requester in the call for a request whose only message is the text
    that was in the input box; waits and pending results are as
    before. *)
Theorem submission_starts_request
    (s : Sys) (m : model) (msg : TeaMsg) (st : ReqState) :
  loop s = Running m ->
  requester s = Some st ->
  pc st = AwaitInput ->
  is_submit msg = true ->
  from_terminal msg = true
  /\ exists s1 s2 u,
       step s (Terminal msg) s1
       /\ step s1 (Submit (textarea_Value (textarea m))) s2
       /\ Update m msg = Ok u
       /\ loop s2 = Running (new_model u)
       /\ messages (new_model u)
          = messages m ++ [user_line (textarea_Value (textarea m)); system_line]
       /\ requester s2
          = Some {| pc := Creating (request_for (textarea_Value (textarea m)));
                    deferred := deferred st |}
       /\ waiters s2 = waiters s /\ inbox s2 = inbox s /\ stdout s2 = stdout s.
Proof.
  intros Hloop Hreq Hpc Hs.
  destruct msg as [k| | | |]; try discriminate.
  split; [reflexivity|].
  assert (Hk : Type_ k = KeyEnter) by (simpl in Hs; destruct (Type_ k); auto; discriminate).
  destruct (Update_submit m k Hk) as (u & Hu & Hm & He & Hw).
  assert (Hd : dispatch s m (KeyMsg k)
               = set_loop s (Blocked m inputMessage (textarea_Value (textarea m)) [] u)).
  { unfold dispatch. rewrite Hu, He. reflexivity. }
  assert (Hstep : req_step st (RecvInput (textarea_Value (textarea m)))
                  = Some ({| pc := Creating (request_for (textarea_Value (textarea m)));
                             deferred := deferred st |},
                          [Request (request_for (textarea_Value (textarea m)))])).
  { unfold req_step. rewrite Hpc. reflexivity. }
  eexists _, _, u. split.
  { apply step_terminal; [exact Hloop | reflexivity]. }
  split.
  { rewrite Hd. eapply step_submit; [reflexivity | exact Hreq | exact Hstep]. }
  split; [exact Hu|]. simpl. unfold complete. rewrite spawn_widgets by exact Hw.
  simpl. auto 10.
Qed.

Lemma taken_in_order_step (s s' : Sys) (a : Action) :
  invariant s -> step s a s' ->
  fragments (inbox s) ++ handed [a] = taken [a] ++ fragments (inbox s').
Proof.
  intros (_ & _ & _ & Harmed & _) Hstep.
  destruct Hstep as [s m0 msg Hl Hterm | s m0 pre msg post Hl Hin
                    | s st0 ev st' outs Hr Hsvc Hstep
                    | s m0 v0 rest0 u0 st0 st' outs Hl Hr Hstep
                    | s st0 frag stream pre post st' outs Hr Hpc Hw Hstep
                    | s m0 ch0 v0 rest0 u0 pre post Hl Hw]; simpl.
  - rewrite dispatch_inbox. apply app_nil_r.
  - rewrite dispatch_inbox. simpl. rewrite Hin.
    unfold armed in Harmed. rewrite <- fragments_filter_length, Hin in Harmed.
    rewrite fragments_app in Harmed. rewrite !fragments_app, app_nil_r.
    destruct msg as [| |f| |]; simpl in *; try reflexivity.
    rewrite length_app in Harmed. simpl in Harmed.
    destruct (fragments pre); [reflexivity | simpl in Harmed; lia].
  - rewrite emit_inbox_fragments. simpl. apply app_nil_r.
  - rewrite perform_inbox, emit_inbox_fragments. simpl. apply app_nil_r.
  - rewrite emit_inbox_fragments. simpl. rewrite fragments_app. reflexivity.
  - rewrite perform_inbox. simpl. rewrite fragments_app. reflexivity.
Qed.

Lemma handed_cons (a : Action) (l : list Action) : handed (a :: l) = handed [a] ++ handed l.
Proof. destruct a; simpl; auto. Qed.

Lemma taken_cons (a : Action) (l : list Action) : taken (a :: l) = taken [a] ++ taken l.
Proof. destruct a as [|msg| | | |]; simpl; auto. destruct msg; reflexivity. Qed.

Lemma taken_in_order_steps (s s' : Sys) (l : list Action) :
  steps s l s' -> invariant s ->
  fragments (inbox s) ++ handed l = taken l ++ fragments (inbox s').
Proof.
  intros Hsteps. induction Hsteps as [|s a s1 l s2 Hstep _ IH]; intros Hinv.
  - simpl. apply app_nil_r.
  - rewrite handed_cons, taken_cons, app_assoc, (taken_in_order_step Hinv Hstep).
    rewrite <- !app_assoc. f_equal. apply IH. eapply invariant_step; eauto.
Qed.

(** X20.  Fragments reach the loop in the order the requester handed
    them on: along any execution from the start, the fragments the loop
    has taken, followed by the one still on its way if there is one,
    are exactly the fragments handed to waiting commands, in order -
    none lost, doubled or overtaken. *)
Theorem fragments_taken_in_order (env : Environ) (s : Sys) (acts : list Action) :
  steps (sys_init env) acts s ->
  taken acts ++ fragments (inbox s) = handed acts
  /\ (List.length (fragments (inbox s)) <= 1)%nat.
Proof.
  intros Hsteps. split.
  - rewrite <- (taken_in_order_steps Hsteps (invariant_init env)). reflexivity.
  - assert (Hinv : invariant s) by (eapply invariant_steps; [apply invariant_init | eauto]).
    destruct Hinv as (_ & _ & _ & Harmed & _). unfold armed in Harmed.
    rewrite fragments_filter_length. lia.
Qed.

(** ** The initial model *)

Lemma take_element_no_slash (l : list ascii) : ~ In "/"%char (take_element l).
Proof.
  induction l as [|c l IH]; simpl; [tauto|].
  destruct (Ascii.eqb_spec c "/"%char) as [E|E]; simpl; [tauto|].
  intros [H|H]; [exact (E H) | exact (IH H)].
Qed.

Lemma path_Base_cases (p : string) :
  path_Base p <> ""
  /\ (path_Base p = "/" \/ ~ In "/"%char (list_ascii_of_string (path_Base p))).
Proof.
  unfold path_Base. destruct (String.eqb p "").
  { split; [discriminate|]. right. simpl. intros [H|[]]. discriminate. }
  pose proof (take_element_no_slash (drop_slashes (rev (list_ascii_of_string p)))) as Hno.
  destruct (take_element (drop_slashes (rev (list_ascii_of_string p)))) as [|c l].
  { split; [discriminate | left; reflexivity]. }
  split.
  - intros E. apply (f_equal list_ascii_of_string) in E.
    rewrite list_ascii_of_string_of_list_ascii in E.
    apply (f_equal (@List.length ascii)) in E. rewrite length_rev in E. discriminate.
  - right. rewrite list_ascii_of_string_of_list_ascii. intros H. apply Hno.
    apply in_rev. exact H.
Qed.

(** X21.  The shell name of the initial model is a base name: whatever
    [SHELL] holds, it is never empty - "sh" when [SHELL] is unset -
    and, unless it is the root "/" itself, it contains no slash. *)
Theorem shell_is_a_base_name (env : Environ) :
  shell (initialModel env) <> ""
  /\ (SHELL env = "" -> shell (initialModel env) = "sh")
  /\ (shell (initialModel env) = "/"
      \/ ~ In "/"%char (list_ascii_of_string (shell (initialModel env)))).
Proof.
  simpl. destruct (String.eqb_spec (SHELL env) "") as [E|E].
  - split; [discriminate|]. split; [reflexivity|]. right. simpl.
    intros [H|[H|[]]]; discriminate.
  - destruct (path_Base_cases (SHELL env)) as [H1 H2].
    split; [exact H1|]. split; [contradiction | exact H2].
Qed.

End Program.

(** * The claims on the reference toolkit *)

Section ReferenceRuns.

#[local] Existing Instance Reference.toolkit.

Import Reference.

(** C1, as stated, fails: after "hi" is submitted and the fragments
    "Hel", "lo", " world" have arrived, the response line is the label
    followed by their concatenation, not the bare concatenation. *)
Lemma response_line_carries_label :
  exists r, eventLoop (initialModel env) (typing ++ conversation rounds) = Ok r
    /\ nth_error (messages (final r)) 1 = Some "System: Hello world"
    /\ nth_error (messages (final r)) 1 <> Some (concat_all ["Hel"; "lo"; " world"]).
Proof.
  eexists. split; [vm_compute; reflexivity|].
  split; [reflexivity|]. vm_compute. discriminate.
Qed.

(** The sample conversation: "hi" is typed and submitted, three
    fragments arrive, then an empty text is submitted and the window
    is resized. *)
Lemma transcript_of_conversation_witness :
  forallb passive typing = true /\ fragments typing = [] /\ Forall round_ok rounds
  /\ exists r, eventLoop (initialModel env) (typing ++ conversation rounds) = Ok r
       /\ List.length (submitted (performed r)) = List.length rounds
       /\ messages (final r)
          = messages (initialModel env)
            ++ flat_map exchange_lines
                 (combine (submitted (performed r)) (map (fun x => fragments (snd x)) rounds))
       /\ List.length (messages (final r))
          = (List.length (messages (initialModel env)) + 2 * List.length rounds)%nat.
Proof.
  assert (H1 : forallb passive typing = true) by reflexivity.
  assert (H2 : fragments typing = []) by reflexivity.
  assert (H3 : Forall round_ok rounds) by (repeat constructor).
  split; [exact H1|]. split; [exact H2|]. split; [exact H3|].
  exact (transcript_of_conversation (initialModel env) typing H1 H2 H3).
Defined.

(** One exchange of the requester: two chunks, then an error wrapping
    [io.EOF]. *)
Lemma requester_cycle_witness :
  pc req_init = AwaitInput
  /\ Forall (fun r => Choices r <> []) [chunk "Hel"; chunk "lo"]
  /\ errors_Is (Some wrapped_EOF) (Some io_EOF) = true
  /\ (forall ev st' outs, req_step req_init ev = Some (st', outs) ->
        exists text, ev = RecvInput text)
  /\ req_run req_init (exchange_events "hi" 0%nat [chunk "Hel"; chunk "lo"] no_chunk wrapped_EOF)
     = Some ({| pc := AwaitInput; deferred := [0%nat] |},
             [Request (request_for "hi"); Forwarded "Hel"; Forwarded "lo"]).
Proof.
  assert (H1 : pc req_init = AwaitInput) by reflexivity.
  assert (H2 : Forall (fun r => Choices r <> []) [chunk "Hel"; chunk "lo"])
    by (repeat constructor; discriminate).
  assert (H3 : errors_Is (Some wrapped_EOF) (Some io_EOF) = true) by reflexivity.
  split; [exact H1|]. split; [exact H2|]. split; [exact H3|].
  exact (requester_cycle req_init "hi" 0%nat no_chunk wrapped_EOF H1 H2 H3).
Defined.

(** A read fails in the middle of a stream: the stream opened before
    is closed and the error is returned. *)
Lemma requester_stops_at_first_error_witness :
  req_run req_init [RecvInput "hi"; Created 0%nat None; Recv (chunk "Hel") None; Sent]
  = Some ({| pc := Receiving 0%nat; deferred := [0%nat] |},
          [Request (request_for "hi"); Forwarded "Hel"])
  /\ fatal {| pc := Receiving 0%nat; deferred := [0%nat] |} (Recv no_chunk (Some conn_reset))
     = Some conn_reset
  /\ exists st' outs',
       req_run req_init
         ([RecvInput "hi"; Created 0%nat None; Recv (chunk "Hel") None; Sent]
          ++ [Recv no_chunk (Some conn_reset)]) = Some (st', outs')
       /\ pc st' = Returned conn_reset
       /\ outs' = [Request (request_for "hi"); Forwarded "Hel"]
                  ++ map Closed [0%nat] ++ [Emitted conn_reset]
       /\ filter is_Emitted outs' = [Emitted conn_reset]
       /\ filter is_Request outs'
          = filter is_Request [Request (request_for "hi"); Forwarded "Hel"]
       /\ (forall next, req_step st' next = None)
       /\ (forall more, more <> [] ->
             req_run req_init
               ([RecvInput "hi"; Created 0%nat None; Recv (chunk "Hel") None; Sent]
                ++ Recv no_chunk (Some conn_reset) :: more) = None).
Proof.
  assert (H1 : req_run req_init
                 [RecvInput "hi"; Created 0%nat None; Recv (chunk "Hel") None; Sent]
               = Some ({| pc := Receiving 0%nat; deferred := [0%nat] |},
                       [Request (request_for "hi"); Forwarded "Hel"])) by reflexivity.
  assert (H2 : fatal {| pc := Receiving 0%nat; deferred := [0%nat] |}
                 (Recv no_chunk (Some conn_reset)) = Some conn_reset) by reflexivity.
  split; [exact H1|]. split; [exact H2|].
  exact (requester_stops_at_first_error _ _ H1 H2).
Defined.



(** Enter on the initial model, whose input box is empty. *)
Lemma empty_submission_witness :
  let m := initialModel env in
  let k := mkKey KeyEnter "" false in
  Type_ k = KeyEnter /\ textarea_Value (textarea m) = "" /\ pc req_init = AwaitInput
  /\ exists u, Update m (KeyMsg k) = Ok u
       /\ messages (new_model u) = messages m ++ [user_line ""; system_line]
       /\ user_line "" = Render "5" "You: "
       /\ messages (new_model u) <> messages m
       /\ effects u = [Send inputMessage ""]
       /\ req_step req_init (RecvInput "")
          = Some ({| pc := Creating (request_for ""); deferred := deferred req_init |},
                  [Request (request_for "")])
       /\ Messages (request_for "") = [ {| Role := ChatMessageRoleUser; Content := "" |} ].
Proof.
  intros m k.
  assert (H1 : Type_ k = KeyEnter) by reflexivity.
  assert (H2 : textarea_Value (textarea m) = "") by reflexivity.
  assert (H3 : pc req_init = AwaitInput) by reflexivity.
  split; [exact H1|]. split; [exact H2|]. split; [exact H3|].
  exact (empty_submission m k req_init H1 H2 H3).
Defined.

(** A resize of the initial model; the reference viewport ignores it. *)
Lemma resize_frame_witness :
  let m := initialModel env in
  (forall v, fst (viewport_Update v (WindowSizeMsg 80 24)) = v)
  /\ exists u, Update m (WindowSizeMsg 80 24) = Ok u
       /\ width (new_model u) = 80 /\ height (new_model u) = 24
       /\ textarea (new_model u)
          = fst (textarea_Update (textarea_SetWidth (textarea m) 80) (WindowSizeMsg 80 24))
       /\ messages (new_model u) = messages m
       /\ viewport (new_model u) = viewport m
       /\ viewport_AtBottom (viewport (new_model u)) = viewport_AtBottom (viewport m)
       /\ err (new_model u) = err m
       /\ effects u = [].
Proof.
  intros m.
  assert (H1 : forall v, fst (viewport_Update v (WindowSizeMsg 80 24)) = v)
    by (intros v; reflexivity).
  split; [exact H1|].
  exact (resize_frame m 80 24 H1).
Defined.

(** Steps of the system on concrete states. *)
Ltac by_terminal := eapply steps_cons; [eapply step_terminal; reflexivity | cbv].
Ltac by_service := eapply steps_cons; [eapply step_service; reflexivity | cbv].
Ltac by_submit := eapply steps_cons; [eapply step_submit; reflexivity | cbv].
Ltac by_fragment :=
  eapply steps_cons; [eapply step_fragment with (pre := []); reflexivity | cbv].
Ltac by_deliver :=
  eapply steps_cons; [eapply step_deliver with (pre := []); reflexivity | cbv].

(** A reachable state in which a fragment awaits the loop: "hi" is
    typed and submitted, the requester takes it, opens a stream, reads
    a chunk and hands its fragment to the waiting command. *)
Lemma fragment_index_in_range_witness :
  exists s, reachable env s
    /\ In (deltaMsg "Hel") (inbox s)
    /\ messages (initialModel env) = []
    /\ (forall m, messages m = [] -> Update m (deltaMsg "Hel") = Panic "index out of range")
    /\ (forall reason, loop s <> Crashed reason)
    /\ (forall m, shown (loop s) = Some m ->
          In (deltaMsg "Hel") (inbox s)
          \/ (exists st stream, requester s = Some st /\ pc st = Forwarding "Hel" stream) ->
          messages m <> [] /\ exists u, Update m (deltaMsg "Hel") = Ok u).
Proof.
  eexists ?[s].
  assert (Hreach : reachable env ?s).
  { exists [Terminal (type "hi"); Terminal (key KeyEnter); Submit "hi";
            Service (Created 0%nat None); Service (Recv (chunk "Hel") None);
            Fragment "Hel"].
    by_terminal. by_terminal. by_submit. by_service. by_service. by_fragment.
    apply steps_nil. }
  split; [exact Hreach|]. split; [left; reflexivity|].
  exact (fragment_index_in_range "Hel" Hreach).
Defined.

(** The same state, for the re-armed wait: its fragment is on its way
    to the loop and no command is receiving. *)
Lemma wait_is_rearmed_witness :
  exists s, reachable env s
    /\ waiters s = [] /\ inbox s = [deltaMsg "Hel"]
    /\ (forall m frag, messages m <> [] ->
          exists u, Update m (deltaMsg frag) = Ok u
            /\ filter is_waitForDelta (cmd u) = [waitForDelta deltaMessage]
            /\ effects u = [])
    /\ armed s = 1%nat
    /\ Forall (eq deltaMessage) (waiters s)
    /\ (forall m ch v rest u, loop s = Blocked m ch v rest u -> ch = inputMessage)
    /\ (forall m msg, loop s = Running m -> from_terminal msg = true ->
          step s (Terminal msg) (dispatch s m msg)).
Proof.
  eexists ?[s].
  assert (Hreach : reachable env ?s).
  { exists [Terminal (type "hi"); Terminal (key KeyEnter); Submit "hi";
            Service (Created 0%nat None); Service (Recv (chunk "Hel") None);
            Fragment "Hel"].
    by_terminal. by_terminal. by_submit. by_service. by_service. by_fragment.
    apply steps_nil. }
  split; [exact Hreach|]. split; [reflexivity|]. split; [reflexivity|].
  exact (wait_is_rearmed Hreach).
Defined.

(** A submission while the response to "hi" is streaming: the loop is
    blocked in its send while the requester hands on the fragment it
    holds and reads the end of the stream; only then is the text
    taken. *)
Lemma send_blocks_until_requester_receives_witness :
  exists s s' m ch v rest u,
    reachable env s
    /\ loop s = Blocked m ch v rest u
    /\ steps s [Fragment "Hel"; Service (Recv no_chunk (Some io_EOF)); Submit ""] s'
    /\ ch = inputMessage
    /\ ((loop s' = loop s
         /\ Forall (fun a : @Action unit => ui_update a = false)
              [Fragment "Hel"; Service (Recv no_chunk (Some io_EOF)); Submit ""])
        \/ (exists before after s1 st,
              [Fragment "Hel"; Service (Recv no_chunk (Some io_EOF)); Submit ""]
              = before ++ Submit v :: after
              /\ steps s before s1 /\ loop s1 = loop s
              /\ Forall (fun a : @Action unit => ui_update a = false) before
              /\ requester s1 = Some st /\ pc st = AwaitInput
              /\ forall st0, requester s = Some st0 -> pc st0 <> AwaitInput ->
                   Exists end_of_stream before)).
Proof.
  eexists ?[s], ?[t], ?[m], ?[ch], ?[v], ?[rest], ?[u].
  assert (Hreach : reachable env ?s).
  { exists [Terminal (type "hi"); Terminal (key KeyEnter); Submit "hi";
            Service (Created 0%nat None); Service (Recv (chunk "Hel") None);
            Terminal (key KeyEnter)].
    by_terminal. by_terminal. by_submit. by_service. by_service. by_terminal.
    apply steps_nil. }
  match type of Hreach with reachable _ ?x =>
    assert (Hloop : loop x = Blocked ?m ?ch ?v ?rest ?u) by reflexivity;
    assert (Hsteps : steps x [Fragment "Hel"; Service (Recv no_chunk (Some io_EOF)); Submit ""]
                       ?t)
      by (by_fragment; by_service; by_submit; apply steps_nil)
  end.
  split; [exact Hreach|]. split; [exact Hloop|]. split; [exact Hsteps|].
  exact (send_blocks_until_requester_receives Hreach Hloop Hsteps).
Defined.

(** The hand-off of a submission need not happen.  When the user
    submits while the requester still has two fragments to hand on,
    the first is taken by the waiting command, whose result the
    blocked loop cannot take, and for the second no wait is armed:
    nothing can move any more. *)
Lemma blocked_send_can_deadlock :
  exists s, reachable env s
    /\ (exists m u, loop s = Blocked m inputMessage "" [] u)
    /\ (exists st stream, requester s = Some st /\ pc st = Forwarding "lo" stream)
    /\ forall a s', ~ step s a s'.
Proof.
  eexists ?[s].
  assert (Hreach : reachable env ?s).
  { exists [Terminal (type "hi"); Terminal (key KeyEnter); Submit "hi";
            Service (Created 0%nat None); Service (Recv (chunk "Hel") None);
            Terminal (key KeyEnter); Fragment "Hel";
            Service (Recv (chunk "lo") None)].
    by_terminal. by_terminal. by_submit. by_service. by_service. by_terminal.
    by_fragment. by_service. apply steps_nil. }
  split; [exact Hreach|].
  split; [eexists _, _; reflexivity|].
  split; [eexists _, _; split; reflexivity|].
  intros a s' Hstep.
  inversion Hstep as [s0 m msg Hl Hterm | s0 m pre msg post Hl Hin
                     | s0 st ev st' outs Hr Hsvc Hreq
                     | s0 m v rest u st st' outs Hl Hr Hreq
                     | s0 st frag stream pre post st' outs Hr Hpc Hw Hreq
                     | s0 m ch v rest u pre post Hl Hw]; subst;
    simpl in *; try discriminate.
  - injection Hr as <-. destruct ev; discriminate.
  - injection Hr as <-. discriminate.
  - destruct pre; discriminate.
  - destruct pre; discriminate.
Qed.

(** A fragment can reach the loop after the next submission - here
    "Hel", the answer to "hi", once the empty second text has been
    taken - and then extends the newest response line. *)
Lemma late_fragment_joins_newest_line :
  exists s m, reachable env s
    /\ loop s = Running m
    /\ messages m = ["You: hi"; "System: "; "You: "; "System: Hel"].
Proof.
  eexists ?[s], ?[m].
  assert (Hreach : reachable env ?s).
  { exists [Terminal (type "hi"); Terminal (key KeyEnter); Submit "hi";
            Service (Created 0%nat None); Service (Recv (chunk "Hel") None);
            Fragment "Hel"; Service (Recv no_chunk (Some io_EOF));
            Terminal (key KeyEnter); Submit ""; Deliver (deltaMsg "Hel")].
    by_terminal. by_terminal. by_submit. by_service. by_service. by_fragment.
    by_service. by_terminal. by_submit. by_deliver. apply steps_nil. }
  split; [exact Hreach|]. split; reflexivity.
Qed.


(** ** Runs for the further properties *)

(** The sample conversation has two submissions and ends with four
    lines. *)
Lemma two_lines_per_submission_witness :
  exists r, eventLoop (initialModel env) (typing ++ conversation rounds) = Ok r
    /\ List.length (messages (final r))
       = (List.length (messages (initialModel env))
          + 2 * List.length (submitted (performed r)))%nat.
Proof.
  eexists ?[r].
  assert (H : eventLoop (initialModel env) (typing ++ conversation rounds) = Ok ?r)
    by (vm_compute; reflexivity).
  split; [exact H|]. exact (@two_lines_per_submission _ _ _ _ _ _ _ _ H).
Defined.

(** From the transcript after one submission, two fragments and a
    second submission extend the last line and add two. *)
Lemma transcript_is_append_only_witness :
  exists m r, eventLoop (initialModel env) [type "hi"; key KeyEnter] = Ok m
    /\ eventLoop (final m) [deltaMsg "Hel"; deltaMsg "lo"; key KeyEnter] = Ok r
    /\ extends (messages (final m)) (messages (final r)).
Proof.
  eexists ?[m], ?[r].
  assert (H0 : eventLoop (initialModel env) [type "hi"; key KeyEnter] = Ok ?m)
    by (vm_compute; reflexivity).
  match type of H0 with _ = Ok ?x =>
    assert (H : eventLoop (final x) [deltaMsg "Hel"; deltaMsg "lo"; key KeyEnter] = Ok ?r)
      by (vm_compute; reflexivity)
  end.
  split; [exact H0|]. split; [exact H|]. exact (@transcript_is_append_only _ _ _ _ _ _ _ _ H).
Defined.



(** Two errors arrive around a key: the later one stays recorded. *)
Lemma error_is_kept_witness :
  exists r, eventLoop (initialModel env)
              [errMsg conn_reset; type "hi"; errMsg wrapped_EOF; WindowSizeMsg 80 24] = Ok r
    /\ (err (initialModel env) <> None -> err (final r) <> None)
    /\ (quit r = false -> err (final r) = Some wrapped_EOF).
Proof.
  eexists ?[r].
  assert (H : eventLoop (initialModel env)
                [errMsg conn_reset; type "hi"; errMsg wrapped_EOF; WindowSizeMsg 80 24]
              = Ok ?r)
    by (vm_compute; reflexivity).
  split; [exact H|]. exact (@error_is_kept _ _ _ _ _ _ _ _ H).
Defined.

(** The reference viewport displays the content it was last given. *)
Lemma viewport_shows_transcript_witness :
  (forall v s, vp_content (viewport_SetContent v s) = s)
  /\ (forall v, vp_content (viewport_GotoBottom v) = vp_content v)
  /\ (forall v (msg : Msg unit), vp_content (fst (viewport_Update v msg)) = vp_content v)
  /\ exists r, eventLoop (initialModel env) (typing ++ conversation rounds) = Ok r
       /\ synced vp_content (initialModel env)
       /\ synced vp_content (final r).
Proof.
  assert (H1 : forall v s, vp_content (viewport_SetContent v s) = s).
  { intros v s. simpl. unfold vp_SetContent.
    destruct (line_count s - 1 <? vp_YOffset v); reflexivity. }
  assert (H2 : forall v, vp_content (viewport_GotoBottom v) = vp_content v)
    by (intros v; reflexivity).
  assert (H3 : forall v (msg : Msg unit),
            vp_content (fst (viewport_Update v msg)) = vp_content v).
  { intros v msg. simpl. unfold vp_Update.
    destruct msg as [k| | | |]; try reflexivity.
    destruct (Type_ k); try reflexivity.
    destruct (String.eqb (Runes k) "j"); [reflexivity|].
    destruct (String.eqb (Runes k) "k"); reflexivity. }
  split; [exact H1|]. split; [exact H2|]. split; [exact H3|].
  eexists ?[r].
  assert (H : eventLoop (initialModel env) (typing ++ conversation rounds) = Ok ?r)
    by (vm_compute; reflexivity).
  split; [exact H|].
  match type of H with eventLoop ?m ?msgs = Ok ?x =>
    pose proof (@viewport_shows_transcript _ _ _ _ _ vp_content env msgs m x H1 H2 H3)
      as [Hinit Hrun]
  end.
  split; [exact Hinit|]. exact (Hrun Hinit H).
Defined.

(** The reference text area with the newline binding disabled: "hi" is
    typed and submitted, and Enter is pressed again. *)
Lemma submission_clears_input_witness :
  let single_line := fun t : ta_model => InsertNewline (ta_settings t) = false in
  (forall t, textarea_Value (textarea_Reset t) = "")
  /\ (forall t, single_line t -> single_line (textarea_Reset t))
  /\ (forall t k, single_line t -> Type_ k = KeyEnter ->
        textarea_Value (fst (textarea_Update t (KeyMsg k))) = textarea_Value t)
  /\ exists m u, eventLoop (initialModel env) typing = Ok m
       /\ single_line (textarea (final m))
       /\ Update (final m) (key KeyEnter) = Ok u
       /\ textarea_Value (textarea (new_model u)) = ""
       /\ exists u', Update (new_model u) (key KeyEnter) = Ok u'
            /\ effects u' = [Send inputMessage ""]
            /\ messages (new_model u')
               = messages (final m)
                 ++ [user_line (textarea_Value (textarea (final m))); system_line;
                     user_line ""; system_line].
Proof.
  intros single_line.
  assert (H1 : forall t, textarea_Value (textarea_Reset t) = "") by (intros t; reflexivity).
  assert (H2 : forall t, single_line t -> single_line (textarea_Reset t))
    by (intros t H; exact H).
  assert (H3 : forall t k, single_line t -> Type_ k = KeyEnter ->
            textarea_Value (fst (textarea_Update t (KeyMsg k))) = textarea_Value t).
  { intros t k Hs Hk. simpl. unfold ta_Update. rewrite Hk. unfold single_line in Hs.
    rewrite Hs. reflexivity. }
  split; [exact H1|]. split; [exact H2|]. split; [exact H3|].
  eexists ?[m], ?[u].
  assert (H0 : eventLoop (initialModel env) typing = Ok ?m) by (vm_compute; reflexivity).
  split; [exact H0|].
  match type of H0 with _ = Ok ?x =>
    assert (Hs : single_line (textarea (final x))) by reflexivity;
    assert (Hu : Update (final x) (key KeyEnter) = Ok ?u) by (vm_compute; reflexivity);
    split; [exact Hs|]; split; [exact Hu|];
    exact (@submission_clears_input _ _ _ _ _ single_line (final x)
             (mkKey KeyEnter "" false) (mkKey KeyEnter "" false) _
             H1 H2 H3 Hs eq_refl eq_refl Hu)
  end.
Defined.

(** The reference viewport is at the bottom after [GotoBottom] and
    scrolls on "j" and "k" only. *)
Lemma viewport_follows_bottom_witness :
  (forall v, viewport_AtBottom (viewport_GotoBottom v) = true)
  /\ (forall v (msg : Msg unit), is_submit msg = true \/ is_delta msg = true ->
        fst (viewport_Update v msg) = v)
  /\ exists m u, eventLoop (initialModel env) [type "hi"; key KeyEnter] = Ok m
       /\ Update (final m) (deltaMsg "Hel") = Ok u
       /\ viewport_AtBottom (viewport (new_model u)) = true.
Proof.
  assert (H1 : forall v, viewport_AtBottom (viewport_GotoBottom v) = true).
  { intros v. simpl. unfold vp_AtBottom, vp_GotoBottom, vp_scroll, maxYOffset. simpl.
    apply Z.leb_le. lia. }
  assert (H2 : forall v (msg : Msg unit), is_submit msg = true \/ is_delta msg = true ->
            fst (viewport_Update v msg) = v).
  { intros v msg. simpl. unfold vp_Update.
    destruct msg as [k| | | |]; simpl; intros [H|H]; try discriminate; try reflexivity.
    destruct (Type_ k); try discriminate; reflexivity. }
  split; [exact H1|]. split; [exact H2|].
  eexists ?[m], ?[u].
  assert (H0 : eventLoop (initialModel env) [type "hi"; key KeyEnter] = Ok ?m)
    by (vm_compute; reflexivity).
  split; [exact H0|].
  match type of H0 with _ = Ok ?x =>
    assert (Hu : Update (final x) (deltaMsg "Hel") = Ok ?u) by (vm_compute; reflexivity);
    split; [exact Hu|];
    exact (@viewport_follows_bottom _ _ _ _ _ (final x) (deltaMsg "Hel") _
             H1 H2 (or_intror eq_refl) Hu)
  end.
Defined.

(** Two exchanges of the requester, the second cut by an error. *)
Lemma requests_mirror_inputs_witness :
  exists st outs,
    req_run req_init
      [RecvInput "hi"; Created 0%nat None; Recv (chunk "Hel") None; Sent;
       Recv no_chunk (Some io_EOF); RecvInput ""; Created 1%nat (Some conn_reset)]
    = Some (st, outs)
    /\ requests_of outs = [request_for "hi"; request_for ""].
Proof.
  eexists ?[st], ?[outs].
  assert (H : req_run req_init
                [RecvInput "hi"; Created 0%nat None; Recv (chunk "Hel") None; Sent;
                 Recv no_chunk (Some io_EOF); RecvInput ""; Created 1%nat (Some conn_reset)]
              = Some (?st, ?outs)) by reflexivity.
  split; [exact H|]. exact (@requests_mirror_inputs _ _ _ _ H).
Defined.

(** Two chunks are read; the second fragment is still held. *)
Lemma fragments_forwarded_in_order_witness :
  exists st outs,
    req_run req_init
      [RecvInput "hi"; Created 0%nat None; Recv (chunk "Hel") None; Sent;
       Recv (chunk "lo") None]
    = Some (st, outs)
    /\ ["Hel"; "lo"] = forwarded_of outs ++ held st.
Proof.
  eexists ?[st], ?[outs].
  assert (H : req_run req_init
                [RecvInput "hi"; Created 0%nat None; Recv (chunk "Hel") None; Sent;
                 Recv (chunk "lo") None]
              = Some (?st, ?outs)) by reflexivity.
  split; [exact H|]. exact (@fragments_forwarded_in_order _ _ _ _ H).
Defined.

(** Two streams are opened; the read error on the second closes both,
    the second first. *)
Lemma streams_closed_at_return_witness :
  exists st outs,
    req_run req_init
      [RecvInput "hi"; Created 0%nat None; Recv no_chunk (Some io_EOF);
       RecvInput "more"; Created 1%nat None; Recv no_chunk (Some conn_reset)]
    = Some (st, outs)
    /\ closed_of outs = [1%nat; 0%nat] /\ deferred st = [].
Proof.
  eexists ?[st], ?[outs].
  assert (H : req_run req_init
                [RecvInput "hi"; Created 0%nat None; Recv no_chunk (Some io_EOF);
                 RecvInput "more"; Created 1%nat None; Recv no_chunk (Some conn_reset)]
              = Some (?st, ?outs)) by reflexivity.
  split; [exact H|]. exact (@streams_closed_at_return _ _ _ H).
Defined.

(** The first chunk of a stream has no choice. *)
Lemma empty_chunk_panics_witness :
  exists st outs,
    req_run req_init [RecvInput "hi"; Created 0%nat None] = Some (st, outs)
    /\ pc st = Receiving 0%nat
    /\ Choices no_chunk = []
    /\ exists st' outs',
         req_run req_init ([RecvInput "hi"; Created 0%nat None] ++ [Recv no_chunk None])
         = Some (st', outs')
         /\ pc st' = Panicked
         /\ outs' = outs ++ map Closed (deferred st)
         /\ filter is_Emitted outs' = []
         /\ forwarded_of outs' = forwarded_of outs
         /\ (forall next, req_step st' next = None).
Proof.
  eexists ?[st], ?[outs].
  assert (H : req_run req_init [RecvInput "hi"; Created 0%nat None] = Some (?st, ?outs))
    by reflexivity.
  split; [exact H|]. split; [reflexivity|]. split; [reflexivity|].
  exact (@empty_chunk_panics _ _ _ 0%nat no_chunk H eq_refl eq_refl).
Defined.

(** The state of [blocked_send_can_deadlock]. *)
Lemma second_fragment_deadlocks_witness :
  exists s m v rest u st,
    reachable env s
    /\ loop s = Blocked m inputMessage v rest u
    /\ requester s = Some st
    /\ pc st = Forwarding "lo" 0%nat
    /\ waiters s = []
    /\ forall a s', ~ step s a s'.
Proof.
  eexists ?[s], ?[m], ?[v], ?[rest], ?[u], ?[st].
  assert (Hreach : reachable env ?s).
  { exists [Terminal (type "hi"); Terminal (key KeyEnter); Submit "hi";
            Service (Created 0%nat None); Service (Recv (chunk "Hel") None);
            Terminal (key KeyEnter); Fragment "Hel";
            Service (Recv (chunk "lo") None)].
    by_terminal. by_terminal. by_submit. by_service. by_service. by_terminal.
    by_fragment. by_service. apply steps_nil. }
  match type of Hreach with reachable _ ?x =>
    assert (Hloop : loop x = Blocked ?m inputMessage ?v ?rest ?u) by reflexivity;
    assert (Hreq : requester x = Some ?st) by reflexivity
  end.
  match type of Hreq with _ = Some ?y =>
    assert (Hpc : pc y = Forwarding "lo" 0%nat) by reflexivity
  end.
  match type of Hreach with reachable _ ?x =>
    assert (Hw : waiters x = []) by reflexivity
  end.
  split; [exact Hreach|]. split; [exact Hloop|]. split; [exact Hreq|].
  split; [exact Hpc|]. split; [exact Hw|].
  exact (@second_fragment_deadlocks _ _ _ _ _ _ _ _ _ _ _ _ _ Hloop Hreq Hpc Hw).
Defined.

(** The request for "hi" fails; the user then submits again. *)
Lemma submission_after_failure_freezes_witness :
  exists s m st,
    reachable env s
    /\ loop s = Running m
    /\ requester s = Some st
    /\ pc st = Returned conn_reset
    /\ is_submit (key KeyEnter) = true
    /\ step s (Terminal (key KeyEnter)) (dispatch s m (key KeyEnter))
    /\ (exists u, dispatch s m (key KeyEnter)
                  = set_loop s (Blocked m inputMessage (textarea_Value (textarea m)) [] u)
          /\ messages (new_model u)
             = messages m ++ [user_line (textarea_Value (textarea m)); system_line])
    /\ forall a s', ~ step (dispatch s m (key KeyEnter)) a s'.
Proof.
  eexists ?[s], ?[m], ?[st].
  assert (Hreach : reachable env ?s).
  { exists [Terminal (type "hi"); Terminal (key KeyEnter); Submit "hi";
            Service (Created 0%nat (Some conn_reset))].
    by_terminal. by_terminal. by_submit. by_service. apply steps_nil. }
  match type of Hreach with reachable _ ?x =>
    assert (Hloop : loop x = Running ?m) by reflexivity;
    assert (Hreq : requester x = Some ?st) by reflexivity
  end.
  match type of Hreq with _ = Some ?y =>
    assert (Hpc : pc y = Returned conn_reset) by reflexivity
  end.
  assert (Hs : is_submit (key KeyEnter) = true) by reflexivity.
  split; [exact Hreach|]. split; [exact Hloop|]. split; [exact Hreq|].
  split; [exact Hpc|]. split; [exact Hs|].
  exact (@submission_after_failure_freezes _ _ _ _ _ _ _ _ _ _ _ Hreach Hloop Hreq Hpc Hs).
Defined.


(** Enter at the start, with "hi" typed. *)
Lemma submission_starts_request_witness :
  exists s m st,
    reachable env s
    /\ loop s = Running m
    /\ requester s = Some st
    /\ pc st = AwaitInput
    /\ is_submit (key KeyEnter) = true
    /\ exists s1 s2 u,
         step s (Terminal (key KeyEnter)) s1
         /\ step s1 (Submit (textarea_Value (textarea m))) s2
         /\ Update m (key KeyEnter) = Ok u
         /\ loop s2 = Running (new_model u)
         /\ messages (new_model u)
            = messages m ++ [user_line (textarea_Value (textarea m)); system_line]
         /\ requester s2
            = Some {| pc := Creating (request_for (textarea_Value (textarea m)));
                      deferred := deferred st |}
         /\ waiters s2 = waiters s /\ inbox s2 = inbox s /\ stdout s2 = stdout s.
Proof.
  eexists ?[s], ?[m], ?[st].
  assert (Hreach : reachable env ?s).
  { exists [Terminal (type "hi")]. by_terminal. apply steps_nil. }
  match type of Hreach with reachable _ ?x =>
    assert (Hloop : loop x = Running ?m) by reflexivity;
    assert (Hreq : requester x = Some ?st) by reflexivity
  end.
  match type of Hreq with _ = Some ?y =>
    assert (Hpc : pc y = AwaitInput) by reflexivity
  end.
  assert (Hs : is_submit (key KeyEnter) = true) by reflexivity.
  split; [exact Hreach|]. split; [exact Hloop|]. split; [exact Hreq|].
  split; [exact Hpc|]. split; [exact Hs|].
  exact (proj2 (@submission_starts_request _ _ _ _ _ _ _ (key KeyEnter) _ Hloop Hreq Hpc Hs)).
Defined.

(** Two fragments are handed on; the loop has taken the first, the
    second is on its way. *)
Lemma fragments_taken_in_order_witness :
  let acts := [Terminal (type "hi"); Terminal (key KeyEnter); Submit "hi";
               Service (Created 0%nat None); Service (Recv (chunk "Hel") None);
               Fragment "Hel"; Service (Recv (chunk "lo") None);
               Deliver (deltaMsg "Hel"); Fragment "lo"] in
  exists s, steps (sys_init env) acts s
    /\ taken acts ++ fragments (inbox s) = ["Hel"; "lo"]
    /\ (List.length (fragments (inbox s)) <= 1)%nat.
Proof.
  intros acts. eexists ?[s].
  assert (Hsteps : steps (sys_init env) acts ?s).
  { unfold acts.
    by_terminal. by_terminal. by_submit. by_service. by_service. by_fragment.
    by_service. by_deliver. by_fragment. apply steps_nil. }
  split; [exact Hsteps|].
  exact (@fragments_taken_in_order _ _ _ _ _ _ _ _ Hsteps).
Defined.

End ReferenceRuns.
